(** * Web-Archiver: the crawl-and-archive engine of [backend/server.js]

    A shallow embedding of the server's utility functions, Content
    Processor, Crawl Orchestrator and Archive Store, with the properties of
    the specification stated and proved over it. *)

From Stdlib Require Import Ascii String NArith.
From stdpp Require Import base decidable option list gmap strings pretty.

#[local] Set Warnings "-clear-no-such-hyp".


(** ** Strings

    A JavaScript string is modelled as a [string], one [ascii] per
    character.  The strings whose characters the server inspects are URLs
    and their paths, which are ASCII in their serialised form. *)

Module Str.

Fixpoint map (f : ascii -> ascii) (s : string) : string :=
  match s with
  | EmptyString => EmptyString
  | String c r => String (f c) (map f r)
  end.

Fixpoint chars (s : string) : list ascii :=
  match s with
  | EmptyString => []
  | String c r => c :: chars r
  end.

(** [s.startsWith(p)] *)
Definition startsWith (p s : string) : bool := String.prefix p s.

(** [s.split(sep)] for a one-character separator: never empty. *)
Fixpoint split (sep : ascii) (s : string) : list string :=
  match s with
  | EmptyString => [EmptyString]
  | String c r =>
      if Ascii.eqb c sep then EmptyString :: split sep r
      else match split sep r with
           | [] => [String c EmptyString]
           | seg :: segs => String c seg :: segs
           end
  end.

(** [arr.pop()] on the fresh array a split returns: its last element. *)
Definition pop (l : list string) : string := List.last l EmptyString.

(** JavaScript truthiness of a string. *)
Definition truthy (s : string) : bool :=
  match s with EmptyString => false | _ => true end.

End Str.

(** ** Utility functions *)

Definition between (lo hi : N) (c : ascii) : bool :=
  ((lo <=? N_of_ascii c) && (N_of_ascii c <=? hi))%N.

Definition isLetter (c : ascii) : bool := between 97 122 c || between 65 90 c.
Definition isDigit (c : ascii) : bool := between 48 57 c.

(** The character class [[a-z0-9.-]] under the flag [i]. *)
Definition inClass (c : ascii) : bool :=
  isLetter c || isDigit c || Ascii.eqb c "." || Ascii.eqb c "-".

(** [filename.replace(/[^a-z0-9.-]/gi, '_')] *)
Definition sanitizeChar (c : ascii) : ascii := if inClass c then c else "_"%char.

Definition sanitizeFilename (filename : string) : string :=
  Str.map sanitizeChar filename.

(** The file name [downloadResource] derives from [urlObj.pathname]. *)
Definition assetFilename (pathname : string) : string :=
  sanitizeFilename (if String.eqb pathname "/" then "index.html" else pathname).

(** The file name [archivePage] derives from [urlObj.pathname]:
    [pathname === '/' ? 'index.html' : pathname.split('/').pop() || 'page.html'] *)
Definition pageFilename (pathname : string) : string :=
  sanitizeFilename
    (if String.eqb pathname "/" then "index.html"
     else let seg := Str.pop (Str.split "/" pathname) in
          if Str.truthy seg then seg else "page.html").

(** Letters, digits, dot, hyphen or underscore. *)
Definition safeChar (c : ascii) : bool := inClass c || Ascii.eqb c "_".

Definition safeName (s : string) : Prop :=
  Forall (fun c => safeChar c = true) (Str.chars s).

(** [path.join], [path.basename] and [path.dirname] on the paths the server
    builds: segments that are not empty, [.] or [..], so that joining is
    concatenation with a separator. *)
Definition pathJoin (a b : string) : string := a +:+ "/" +:+ b.

Definition basename (p : string) : string := Str.pop (Str.split "/" p).

Definition dirname (p : string) : string :=
  String.concat "/" (removelast (Str.split "/" p)).

(** A directory with the directories above it, outermost first: what
    [fs.mkdir(dir, { recursive: true })] makes sure exists. *)
Fixpoint prefixesFrom (above : string) (segs : list string) : list string :=
  match segs with
  | [] => []
  | seg :: rest =>
      let here := if Str.truthy above then pathJoin above seg else seg in
      here :: prefixesFrom here rest
  end.

Definition withParents (dir : string) : list string :=
  prefixesFrom "" (Str.split "/" dir).

(** Whether a path is a directory or lies below it. *)
Definition below (dir path : string) : bool :=
  bool_decide (path = dir) || Str.startsWith (dir +:+ "/") path.

(** [getArchiveDir]: [path.join(__dirname, 'archives', archiveId)], with the
    server's own directory as the root of relative paths. *)
Definition getArchiveDir (archiveId : string) : string := pathJoin "archives" archiveId.

(** ** Data model *)

Inductive Category := css | js | image.

(** The subdirectory [downloadResource] is given for each category. *)
Definition resourcePath (c : Category) : string :=
  match c with css => "css" | js => "js" | image => "images" end.

Inductive AssetStatus := downloaded | failed.

(** An entry of an [assets] array.  No object literal of the server sets
    [size]; the create handler reads it as [asset.size || 0]. *)
Record AssetRecord := mkAsset {
  a_type : Category;
  a_url : string;
  a_status : AssetStatus;
  a_size : option N
}.

(** The JavaScript values a [size] and a sum of sizes can be: a
    non-negative integer, within the range in which doubles are exact;
    [undefined]; [NaN]; or any other value (a string, a boolean, [null], a
    negative or fractional number, an object), kept by a representation
    that only the platform reads. *)
Inductive Value :=
| Num (n : N)
| Undefined
| NaN
| Other (repr : string).

Record PageRecord := mkPage {
  p_url : string;
  p_filename : string;
  p_size : Value;
  p_timestamp : nat
}.

(** What [cheerio.load] gives: the elements of the document in document
    order, each with the attribute the server reads ([href] of [a] and
    [link rel="stylesheet"], [src] of [script] and [img]). *)
Inductive Tag := TagA | TagStylesheet | TagScript | TagImg | TagOther.

Record Element := mkElement { tag : Tag; ref : option string }.

Definition Document := list Element.

(** A response, by its payload: the bytes [downloadResource] gets as
    [response.data], having asked for an [arraybuffer]. *)
Record Response := mkResponse { data : string; contentType : option string }.

(** What [response.data] is in [archivePage], whose request names no
    [responseType]: the payload as a string, unless axios could parse it as
    JSON, and then the value parsed.  Of such a value the server takes two
    things: what [cheerio.load] makes of it ([None] when that throws) and
    its [length] ([None] when reading it throws, as on [null]). *)
Inductive Body :=
| Text (html : string)
| Parsed (loaded : option Document) (len : option Value).

(** A callback of [.each(async ...)] suspended at
    [await downloadResource(fullUrl, archiveDir, ...)]: the document and
    element it will rewrite, the array it will push to, and the moment its
    request was issued. *)
Record Task := mkTask {
  t_doc : nat;
  t_el : nat;
  t_arr : nat;
  t_cat : Category;
  t_url : string;
  t_dir : string;
  t_issued : nat
}.

Global Instance Category_eq_dec : EqDecision Category.
Proof. solve_decision. Defined.
Global Instance AssetStatus_eq_dec : EqDecision AssetStatus.
Proof. solve_decision. Defined.
Global Instance Tag_eq_dec : EqDecision Tag.
Proof. solve_decision. Defined.
Global Instance Element_eq_dec : EqDecision Element.
Proof. solve_decision. Defined.

(** ** The platform

    What the server gets from Node and its packages: WHATWG [URL], [axios],
    [cheerio], [fs] and the event loop.  Results may depend on the moment
    (a logical clock that advances at every [await]). *)
Class Platform := {
  (** [new URL(href, base).toString()]; [None] when the constructor throws *)
  urlResolve : string -> string -> option string;
  (** [new URL(u).hostname]; [None] when the constructor throws *)
  urlHostname : string -> option string;
  (** [new URL(u).pathname] *)
  urlPathname : string -> option string;
  (** [axios.get(u)] issued at a moment; [None] when it rejects: network
      error, timeout or a status outside 2xx *)
  httpGet : nat -> string -> option Response;
  (** the [data] axios gives for a payload when no [responseType] is asked
      for: its default [transformResponse] *)
  responseData : string -> Body;
  (** [cheerio.load(html)] of a string, and [$.html()] *)
  parseHtml : string -> Document;
  renderHtml : Document -> string;
  (** [a + b] and [Math.round(v / 1024) + 'KB'] where an operand is neither
      a number nor [undefined] *)
  jsAdd : Value -> Value -> Value;
  jsKilobytes : Value -> string;
  (** whether the disk takes a change at a path ([fs.mkdir], [fs.writeFile],
      [fs.rmdir]) at a moment *)
  diskOk : nat -> string -> bool;
  (** whether the download of a suspended callback has resolved by a moment *)
  resolved : nat -> Task -> bool
}.

(** A file on disk: page markup, asset payload, or [metadata.json]. *)
Inductive FileContent :=
| Payload (bytes : string)
| Metadata (archiveId : string) (pages : list PageRecord) (assets : list AssetRecord).

(** An entry of the in-memory index [archives].  [assets] is the array
    object of the crawl result, held by reference. *)
Record Archive := mkArchive {
  ar_id : string;
  ar_url : string;
  ar_timestamp : nat;
  ar_status : string;
  ar_pagesArchived : nat;
  ar_assetsArchived : nat;
  ar_totalSize : string;
  ar_pages : list PageRecord;
  ar_assets : nat
}.

(** The state of the running server: the [visited] set of the crawl run in
    progress, the requests and console lines issued, the objects shared by
    reference (documents and [assets] arrays), the suspended callbacks, the
    disk, and the in-memory index. *)
Record World := mkWorld {
  visited : gset string;
  requests : list string;
  console : list (string * nat);
  downloads : list string;
  docs : list Document;
  arrays : list (list AssetRecord);
  inflight : list Task;
  clock : nat;
  dirs : gset string;
  files : gmap string FileContent;
  archives : list Archive
}.

Definition setVisited (v : gset string) (w : World) : World :=
  mkWorld v (requests w) (console w) (downloads w) (docs w) (arrays w)
          (inflight w) (clock w) (dirs w) (files w) (archives w).
Definition setRequests (r : list string) (w : World) : World :=
  mkWorld (visited w) r (console w) (downloads w) (docs w) (arrays w)
          (inflight w) (clock w) (dirs w) (files w) (archives w).
Definition setConsole (c : list (string * nat)) (w : World) : World :=
  mkWorld (visited w) (requests w) c (downloads w) (docs w) (arrays w)
          (inflight w) (clock w) (dirs w) (files w) (archives w).
Definition setDownloads (d : list string) (w : World) : World :=
  mkWorld (visited w) (requests w) (console w) d (docs w) (arrays w)
          (inflight w) (clock w) (dirs w) (files w) (archives w).
Definition setDocs (d : list Document) (w : World) : World :=
  mkWorld (visited w) (requests w) (console w) (downloads w) d (arrays w)
          (inflight w) (clock w) (dirs w) (files w) (archives w).
Definition setArrays (a : list (list AssetRecord)) (w : World) : World :=
  mkWorld (visited w) (requests w) (console w) (downloads w) (docs w) a
          (inflight w) (clock w) (dirs w) (files w) (archives w).
Definition setInflight (t : list Task) (w : World) : World :=
  mkWorld (visited w) (requests w) (console w) (downloads w) (docs w) (arrays w)
          t (clock w) (dirs w) (files w) (archives w).
Definition setClock (n : nat) (w : World) : World :=
  mkWorld (visited w) (requests w) (console w) (downloads w) (docs w) (arrays w)
          (inflight w) n (dirs w) (files w) (archives w).
Definition setDirs (d : gset string) (w : World) : World :=
  mkWorld (visited w) (requests w) (console w) (downloads w) (docs w) (arrays w)
          (inflight w) (clock w) d (files w) (archives w).
Definition setFiles (f : gmap string FileContent) (w : World) : World :=
  mkWorld (visited w) (requests w) (console w) (downloads w) (docs w) (arrays w)
          (inflight w) (clock w) (dirs w) f (archives w).
Definition setArchives (a : list Archive) (w : World) : World :=
  mkWorld (visited w) (requests w) (console w) (downloads w) (docs w) (arrays w)
          (inflight w) (clock w) (dirs w) (files w) a.

(** A server that has just started. *)
Definition boot : World := mkWorld ∅ [] [] [] [] [] [] 0 ∅ ∅ [].

(** The disk with a directory made, and with a directory and all that lies
    below it removed. *)
Definition makeDirs (dir : string) (w : World) : World :=
  setDirs (list_to_set (withParents dir) ∪ dirs w) w.

Definition removeTree (dir : string) (w : World) : World :=
  setFiles (filter (fun kv => below dir kv.1 = false) (files w))
    (setDirs (filter (fun d => below dir d = false) (dirs w)) w).

(** ** The engine *)

Section Engine.
Context `{Platform}.

Definition isValidUrl (s : string) : bool :=
  match urlHostname s with Some _ => true | None => false end.

Definition isSameDomain (url1 url2 : string) : bool :=
  match urlHostname url1 with
  | Some domain1 =>
      match urlHostname url2 with
      | Some domain2 => bool_decide (domain1 = domain2)
      | None => false
      end
  | None => false
  end.

(** *** Shared objects *)

(** A fresh array object; its reference is its position in the store. *)
Definition newArray (l : list AssetRecord) (w : World) : nat * World :=
  (length (arrays w), setArrays (arrays w ++ [l]) w).

(** [arr.push(r)] *)
Definition push (arr : nat) (r : AssetRecord) (w : World) : World :=
  setArrays (alter (fun l => l ++ [r]) arr (arrays w)) w.

(** The elements of an array object now. *)
Definition readArray (arr : nat) (w : World) : list AssetRecord :=
  default [] (arrays w !! arr).

(** [a.concat(b)]: a fresh array. *)
Definition concat (a b : nat) (w : World) : nat * World :=
  newArray (readArray a w ++ readArray b w) w.

(** [$(el).attr(name, value)] on element [i] of document [doc]. *)
Definition setAttr (doc i : nat) (value : string) (w : World) : World :=
  setDocs (alter (alter (fun el => mkElement (tag el) (Some value)) i) doc (docs w)) w.

(** *** Asset Downloader *)

Record Download := mkDownload {
  localPath : string;
  dl_contentType : option string;
  dl_size : N
}.

(** [downloadResource(url, archiveDir, resourcePath)], run to its end for a
    request issued at [issued]: [None] stands for [{ success: false }],
    returned from the [catch] whichever step threw. *)
Definition downloadResource (url archiveDir resourcePath : string) (issued : nat)
    (w : World) : option Download * World :=
  match httpGet issued url with
  | None => (None, w)
  | Some response =>
      match urlPathname url with
      | None => (None, w)
      | Some pathname =>
          let filename := assetFilename pathname in
          let filePath := pathJoin (pathJoin archiveDir resourcePath) filename in
          if diskOk (clock w) (dirname filePath) then
            let w := makeDirs (dirname filePath) w in
            if diskOk (clock w) filePath then
              (Some (mkDownload (pathJoin resourcePath filename)
                                (contentType response)
                                (N.of_nat (String.length (data response)))),
               setFiles (<[filePath := Payload (data response)]> (files w)) w)
            else (None, w)
          else (None, w)
      end
  end.

(** *** Content Processor *)

(** [$(selector).each(f)]: [f] on every element in document order,
    with its position. *)
Fixpoint eachFrom {St : Type} (i : nat) (els : list Element)
    (f : nat -> Element -> St -> St) (s : St) : St :=
  match els with
  | [] => s
  | el :: rest => eachFrom (S i) rest f (f i el s)
  end.

Definition each {St : Type} (els : list Element) (f : nat -> Element -> St -> St)
    (s : St) : St :=
  eachFrom 0 els f s.

(** The callback of [$('a[href]').each]. *)
Definition linkCallback (baseUrl : string) (i : nat) (el : Element)
    (links : list string) : list string :=
  match tag el, ref el with
  | TagA, Some href =>
      if Str.truthy href && negb (Str.startsWith "#" href)
         && negb (Str.startsWith "mailto:" href) && negb (Str.startsWith "tel:" href)
      then match urlResolve href baseUrl with
           | Some fullUrl =>
               if isSameDomain fullUrl baseUrl then links ++ [fullUrl] else links
           | None => links
           end
      else links
  | _, _ => links
  end.

(** [[...new Set(links)]]: first occurrences, in insertion order. *)
Fixpoint uniq (l : list string) : list string :=
  match l with
  | [] => []
  | x :: r => x :: List.filter (fun y => negb (String.eqb x y)) (uniq r)
  end.

(** The elements [link[rel="stylesheet"]], [script[src]] and [img[src]]
    select. *)
Definition selected (c : Category) (el : Element) : bool :=
  match c, tag el with
  | css, TagStylesheet => true
  | js, TagScript => bool_decide (is_Some (ref el))
  | image, TagImg => bool_decide (is_Some (ref el))
  | _, _ => false
  end.

(** The callback of the three [.each(async (i, el) => ...)], up to its first
    [await]: an unresolvable reference is recorded as failed at once;
    otherwise the download is started and the callback is suspended. *)
Definition assetCallback (c : Category) (doc arr : nat) (baseUrl archiveDir : string)
    (i : nat) (el : Element) (w : World) : World :=
  if selected c el then
    match ref el with
    | Some href =>
        if Str.truthy href then
          match urlResolve href baseUrl with
          | Some fullUrl =>
              setInflight (inflight w ++ [mkTask doc i arr c fullUrl archiveDir (clock w)])
                (setDownloads (downloads w ++ [fullUrl]) w)
          | None => push arr (mkAsset c href failed None) w
          end
        else w
    | None => w
    end
  else w.

(** The rest of that callback, resumed once [downloadResource] has resolved. *)
Definition settle (t : Task) (w : World) : World :=
  let '(result, w) :=
    downloadResource (t_url t) (t_dir t) (resourcePath (t_cat t)) (t_issued t) w in
  match result with
  | Some r =>
      let w := setAttr (t_doc t) (t_el t)
                 ("/archives/" +:+ basename (t_dir t) +:+ "/" +:+ resourcePath (t_cat t)
                  +:+ "/" +:+ basename (localPath r)) w in
      push (t_arr t) (mkAsset (t_cat t) (t_url t) downloaded None) w
  | None => w
  end.

(** An [await] of the main control flow: the clock advances and the event
    loop resumes the suspended callbacks whose download has resolved. *)
Definition tick (w : World) : World :=
  let now := S (clock w) in
  let ready := List.filter (resolved now) (inflight w) in
  let waiting := List.filter (fun t => negb (resolved now t)) (inflight w) in
  foldl (fun w t => settle t w) (setInflight waiting (setClock now w)) ready.

Record Processed := mkProcessed {
  processedHtml : string;
  pr_assets : nat;
  links : list string
}.

(** [processHtmlContent(html, baseUrl, archiveDir)] from its second
    statement on, for the document [loaded] that [cheerio.load(html)] has
    given.  The body has no [await]: it runs to its [return] before any
    suspended callback is resumed. *)
Definition processLoaded (loaded : Document) (baseUrl archiveDir : string) (w : World)
    : Processed * World :=
  let doc := length (docs w) in
  let w := setDocs (docs w ++ [loaded]) w in
  let '(arr, w) := newArray [] w in
  let found := each loaded (linkCallback baseUrl) [] in
  let w := each loaded (assetCallback css doc arr baseUrl archiveDir) w in
  let w := each loaded (assetCallback js doc arr baseUrl archiveDir) w in
  let w := each loaded (assetCallback image doc arr baseUrl archiveDir) w in
  (mkProcessed (renderHtml (default [] (docs w !! doc))) arr (uniq found), w).

(** [processHtmlContent(html, baseUrl, archiveDir)] on a string. *)
Definition processHtmlContent (html baseUrl archiveDir : string) (w : World)
    : Processed * World :=
  processLoaded (parseHtml html) baseUrl archiveDir w.

(** [cheerio.load(html)] and [html.length] for the [response.data] of a
    page. *)
Definition load (html : Body) : option Document :=
  match html with
  | Text html => Some (parseHtml html)
  | Parsed loaded _ => loaded
  end.

Definition lengthOf (html : Body) : option Value :=
  match html with
  | Text html => Some (Num (N.of_nat (String.length html)))
  | Parsed _ len => len
  end.

(** *** Crawl Orchestrator *)

Record Result := mkResult { pages : list PageRecord; assets : nat }.

(** [{ pages: [], assets: [] }] *)
Definition emptyResult (w : World) : Result * World :=
  let '(arr, w) := newArray [] w in (mkResult [] arr, w).

(** [fs.mkdir(dir, { recursive: true })], awaited: [false] when it throws. *)
Definition mkdir (dir : string) (w : World) : bool * World :=
  if diskOk (clock w) dir
  then (true, tick (makeDirs dir w))
  else (false, tick w).

(** [fs.writeFile(path, content)], awaited: [false] when it throws. *)
Definition writeFile (path : string) (content : FileContent) (w : World) : bool * World :=
  if diskOk (clock w) path
  then (true, tick (setFiles (<[path := content]> (files w)) w))
  else (false, tick w).

(** The body of the [for (const link of ...)] loop, given the recursive
    call. *)
Definition followLink (recur : string -> World -> Result * World)
    (acc : list PageRecord * nat * World) (link : string)
    : list PageRecord * nat * World :=
  let '(allPages, allAssets, w) := acc in
  let '(result, w) := recur link w in
  let w := tick w in
  let '(allAssets, w) := concat allAssets (assets result) w in
  (allPages ++ pages result, allAssets, w).

(** The body of [archivePage], with [recur link] for the recursive call
    [archivePage(link, archiveDir, visited, maxDepth, currentDepth + 1)].
    Every exit through the [catch] is an empty result: a request that
    rejects, a [cheerio.load] that throws inside [processHtmlContent], a
    URL without a path, a disk that refuses, and [html.length] on a value
    that has no members, which is read after the page has been written. *)
Definition archiveBody (recur : string -> World -> Result * World)
    (url archiveDir : string) (maxDepth currentDepth : nat) (w : World)
    : Result * World :=
  if bool_decide (url ∈ visited w) || (maxDepth <? currentDepth) then emptyResult w
  else
    let w := setVisited ({[url]} ∪ visited w) w in
    let w := setConsole (console w ++ [(url, currentDepth)]) w in
    let issued := clock w in
    let w := tick (setRequests (requests w ++ [url]) w) in
    match httpGet issued url with
    | None => emptyResult w
    | Some response =>
        let html := responseData (data response) in
        match load html with
        | None => emptyResult (tick w)
        | Some loaded =>
            let '(out, w) := processLoaded loaded url archiveDir w in
            let w := tick w in
            match urlPathname url with
            | None => emptyResult w
            | Some pathname =>
                let filename := pageFilename pathname in
                let htmlPath := pathJoin (pathJoin archiveDir "pages") filename in
                let '(made, w) := mkdir (dirname htmlPath) w in
                if negb made then emptyResult w else
                let '(written, w) := writeFile htmlPath (Payload (processedHtml out)) w in
                if negb written then emptyResult w else
                match lengthOf html with
                | None => emptyResult w
                | Some size =>
                    let allPages := [mkPage url filename size (clock w)] in
                    let allAssets := pr_assets out in
                    if currentDepth <? maxDepth then
                      let '(allPages, allAssets, w) :=
                        foldl (followLink recur) (allPages, allAssets, w)
                              (take 10 (links out)) in
                      (mkResult allPages allAssets, w)
                    else (mkResult allPages allAssets, w)
                end
            end
        end
    end.

(** The recursion of [archivePage] is on the depth that remains below
    [maxDepth]: [rem] is [maxDepth - currentDepth] throughout, and a call is
    only made when one level at least remains. *)
Fixpoint crawl (rem : nat) (url archiveDir : string) (maxDepth currentDepth : nat)
    (w : World) : Result * World :=
  archiveBody
    (fun link w =>
       match rem with
       | S rem' => crawl rem' link archiveDir maxDepth (S currentDepth) w
       | 0 => emptyResult w
       end)
    url archiveDir maxDepth currentDepth w.

(** [archivePage(url, archiveDir, visited, maxDepth, currentDepth)]; the
    [visited] set is the one of the world. *)
Definition archivePage (url archiveDir : string) (maxDepth currentDepth : nat)
    (w : World) : Result * World :=
  crawl (maxDepth - currentDepth) url archiveDir maxDepth currentDepth w.

(** [archivePage(url, archiveDir)]: the defaults [visited = new Set()],
    [maxDepth = 2], [currentDepth = 0]. *)
Definition archiveSite (url archiveDir : string) (w : World) : Result * World :=
  archivePage url archiveDir 2 0 (setVisited ∅ w).

(** *** Archive Store *)

Inductive Reply :=
| Created (archive : Archive)
| Deleted
| BadRequest
| NotFound
| ServerError.

(** [a + b] on the values sizes and their sums can be. *)
Definition plus (a b : Value) : Value :=
  match a, b with
  | Num x, Num y => Num (x + y)
  | (Num _ | Undefined | NaN), (Undefined | NaN) => NaN
  | (Undefined | NaN), Num _ => NaN
  | _, _ => jsAdd a b
  end.

(** [result.pages.reduce((sum, page) => sum + page.size, 0)] *)
Definition pagesSize (ps : list PageRecord) : Value :=
  foldl (fun sum page => plus sum (p_size page)) (Num 0) ps.

(** The sum of sizes that are all numbers. *)
Definition sumOf (sizes : list N) : N := foldl N.add 0%N sizes.

(** [result.assets.reduce((sum, asset) => sum + (asset.size || 0), 0)] *)
Definition assetsSize (l : list AssetRecord) : N :=
  foldl (fun sum asset => (sum + default 0 (a_size asset))%N) 0%N l.

(** [Math.round(totalSize / 1024) + 'KB']: on a number the division by a
    power of two is exact, and rounding is to the nearest integer, halves
    upwards; [undefined] and [NaN] give [NaN]. *)
Definition formatSize (totalSize : Value) : string :=
  match totalSize with
  | Num n => pretty ((n + 512) / 1024)%N +:+ "KB"
  | Undefined | NaN => "NaNKB"
  | Other _ => jsKilobytes totalSize
  end.

(** The handler of [POST /api/archives], for the [url] of the request body
    and the identifier [generateId] draws. *)
Definition createArchive (url archiveId : string) (w : World) : Reply * World :=
  if negb (Str.truthy url) || negb (isValidUrl url) then (BadRequest, w)
  else
    let timestamp := clock w in
    let archiveDir := getArchiveDir archiveId in
    let '(made, w) := mkdir archiveDir w in
    if negb made then (ServerError, w) else
    let '(result, w) := archiveSite url archiveDir w in
    let w := tick w in
    let totalSize :=
      plus (pagesSize (pages result)) (Num (assetsSize (readArray (assets result) w))) in
    let archive :=
      mkArchive archiveId url timestamp "completed"
                (length (pages result)) (length (readArray (assets result) w))
                (formatSize totalSize) (pages result) (assets result) in
    let '(written, w) :=
      writeFile (pathJoin archiveDir "metadata.json")
                (Metadata archiveId (pages result) (readArray (assets result) w)) w in
    if negb written then (ServerError, w)
    else (Created archive, setArchives (archive :: archives w) w).

(** [fs.rmdir(dir, { recursive: true })] as on the Node releases the setup
    script requires (18.17 and later): it throws when [dir] does not
    exist, and otherwise removes the directory with all that lies below. *)
Definition rmdirRecursive (dir : string) (w : World) : option World :=
  if bool_decide (dir ∈ dirs w) && diskOk (clock w) dir
  then Some (removeTree dir w)
  else None.

(** [archives.findIndex(a => a.id === id)]; [None] stands for [-1]. *)
Definition findIndex (id : string) (l : list Archive) : option nat :=
  fst <$> list_find (fun a => ar_id a = id) l.

(** The handler of [DELETE /api/archives/:id]. *)
Definition deleteArchive (id : string) (w : World) : Reply * World :=
  match findIndex id (archives w) with
  | None => (NotFound, w)
  | Some archiveIndex =>
      let archiveDir := getArchiveDir id in
      match rmdirRecursive archiveDir w with
      | Some w =>
          let w := tick w in
          (Deleted, setArchives (delete archiveIndex (archives w)) w)
      | None => (ServerError, tick w)
      end
  end.

(** The handler of [GET /api/archives/:id]. *)
Definition getArchive (id : string) (w : World) : option Archive :=
  List.find (fun a => bool_decide (ar_id a = id)) (archives w).

(** The world in which the create handler takes the total: the crawl has
    been awaited, [metadata.json] is not yet written. *)
Definition totalled (url archiveId : string) (w : World) : World :=
  tick (archiveSite url (getArchiveDir archiveId)
          (mkdir (getArchiveDir archiveId) w).2).2.

End Engine.

(** ** A small site

    A concrete platform on which the engine is run in the examples below:
    two hosts, a few pages, one of them with twelve links, one whose body
    is JSON, one stylesheet that downloads and one image that answers 404.  Its [URL] functions agree with Node's on the
    references that occur in these pages. *)

Module Site.

Definition root : string := "http://a.test/".

(** Drops the first [n] characters. *)
Fixpoint skip (n : nat) (s : string) : string :=
  match n, s with
  | 0, _ => s
  | S k, String _ r => skip k r
  | S _, EmptyString => EmptyString
  end.

Definition hostname (u : string) : option string :=
  if Str.startsWith "http://a.test/" u then Some "a.test"
  else if Str.startsWith "http://b.test/" u then Some "b.test"
  else None.

Definition pathname (u : string) : option string :=
  match hostname u with
  | Some _ => Some (skip 13 u)
  | None => None
  end.

(** [new URL('', base)] is [base]; [new URL('http://', base)] throws; an
    absolute reference in serialised form is itself; a reference that
    starts with a slash or a number sign replaces the path or fragment of
    a base on [a.test]. *)
Definition resolve (href base : string) : option string :=
  if bool_decide (href = "") then Some base
  else if bool_decide (href = "http://") then None
  else if Str.startsWith "http://" href then Some href
  else if Str.startsWith "/" href then Some ("http://a.test" +:+ href)
  else if Str.startsWith "#" href then Some (base +:+ href)
  else if Str.startsWith "mailto:" href then Some href
  else None.

Definition get (u : string) : option Response :=
  if bool_decide (u = "http://a.test/") then Some (mkResponse "HOME" (Some "text/html"))
  else if bool_decide (u = "http://a.test/p1") then Some (mkResponse "P1" (Some "text/html"))
  else if bool_decide (u = "http://a.test/p2") then Some (mkResponse "P2" (Some "text/html"))
  else if bool_decide (u = "http://a.test/self") then Some (mkResponse "SELF" (Some "text/html"))
  else if bool_decide (u = "http://a.test/x") then Some (mkResponse "xxxx" (Some "text/html"))
  else if bool_decide (u = "http://a.test/y") then Some (mkResponse "yy" (Some "text/html"))
  else if bool_decide (u = "http://a.test/pic") then Some (mkResponse "PIC" (Some "text/html"))
  else if bool_decide (u = "http://a.test/s.css") then Some (mkResponse "body{}" (Some "text/css"))
  else if bool_decide (u = "http://b.test/") then Some (mkResponse "ELSEWHERE" (Some "text/html"))
  else if bool_decide (u = "http://a.test/data.json")
  then Some (mkResponse "{}" (Some "application/json"))
  else if bool_decide (u = "http://a.test/many")
  then Some (mkResponse "MANY" (Some "text/html"))
  else None.

(** The empty object is the one payload of the site that parses as JSON:
    [cheerio.load] takes the object for a node and gives a document without
    any element the server selects, and the object has no [length]. *)
Definition transform (payload : string) : Body :=
  if bool_decide (payload = "{}") then Parsed (Some []) (Some Undefined)
  else Text payload.

Definition parse (html : string) : Document :=
  if bool_decide (html = "HOME") then
    [ mkElement TagStylesheet (Some "/s.css");
      mkElement TagA (Some "/p1");
      mkElement TagA (Some "#top");
      mkElement TagA (Some "mailto:webmaster@a.test");
      mkElement TagA (Some "http://b.test/");
      mkElement TagA (Some "/gone");
      mkElement TagA (Some "/p1");
      mkElement TagA (Some "/p2");
      mkElement TagImg (Some "/missing.png") ]
  else if bool_decide (html = "P1") then
    [ mkElement TagA (Some "/");
      mkElement TagA (Some "/p2");
      mkElement TagStylesheet (Some "/s.css") ]
  else if bool_decide (html = "SELF") then
    [ mkElement TagA (Some "") ]
  else if bool_decide (html = "PIC") then
    [ mkElement TagImg (Some "/missing.png");
      mkElement TagScript (Some "http://") ]
  else if bool_decide (html = "MANY") then
    (fun href => mkElement TagA (Some href))
      <$> [ "/n01"; "/n02"; "/n03"; "/n04"; "/n05"; "/n06";
            "/n07"; "/n08"; "/n09"; "/n10"; "/n11"; "/n12" ]
  else [].

Definition tagName (t : Tag) : string :=
  match t with
  | TagA => "a" | TagStylesheet => "link" | TagScript => "script"
  | TagImg => "img" | TagOther => "div"
  end.

Definition render (doc : Document) : string :=
  String.concat " " (List.map (fun el => tagName (tag el) +:+ "=" +:+ default "" (ref el)) doc).

(** The site with an obliging disk, where every download has resolved by
    the next [await]. *)
Definition platform : Platform := {|
  urlResolve := resolve;
  urlHostname := hostname;
  urlPathname := pathname;
  httpGet := fun _ => get;
  responseData := transform;
  parseHtml := parse;
  renderHtml := render;
  jsAdd := fun _ _ => NaN;
  jsKilobytes := fun _ => "NaNKB";
  diskOk := fun _ _ => true;
  resolved := fun _ _ => true
|}.

(** The server after it has archived the home page under the identifier
    [id1], and the same server once the archive directory has been removed
    from disk behind its back. *)
Definition archived : World := (@createArchive platform root "id1" boot).2.

Definition orphaned : World := removeTree (getArchiveDir "id1") archived.

End Site.

(** ** What a crawl does to the visited set, the requests and the console

    The part of the world the crawl invariants speak of, and the shape of
    a run of [archivePage] over it: a derivation tree that follows the
    recursion of the source, leaving out documents, arrays and disk. *)

Section CrawlShape.
Context `{Platform}.

Record Trace := mkTrace {
  seen : gset string;
  asked : list string;
  said : list (string * nat);
  kept : list Archive
}.

Definition trace (w : World) : Trace :=
  mkTrace (visited w) (requests w) (console w) (archives w).

(** The trace after [visited.add(url)], the console line and the request
    for [url]. *)
Definition mark (url : string) (currentDepth : nat) (t : Trace) : Trace :=
  mkTrace ({[url]} ∪ seen t) (asked t ++ [url]) (said t ++ [(url, currentDepth)]) (kept t).

(** The links the Processor discovers in a document, and in a page given
    as a string. *)
Definition linksOf (loaded : Document) (baseUrl : string) : list string :=
  uniq (each loaded (linkCallback baseUrl) []).

Definition discovered (html baseUrl : string) : list string :=
  linksOf (parseHtml html) baseUrl.

Inductive Visit (maxDepth : nat)
    : string -> nat -> Trace -> list PageRecord -> Trace -> Prop :=
| Visit_skip url currentDepth t :
    url ∈ seen t \/ maxDepth < currentDepth ->
    Visit maxDepth url currentDepth t [] t
| Visit_fail url currentDepth t :
    url ∉ seen t -> currentDepth <= maxDepth ->
    Visit maxDepth url currentDepth t [] (mark url currentDepth t)
| Visit_page url currentDepth t t' issued response loaded page below :
    url ∉ seen t -> currentDepth <= maxDepth ->
    httpGet issued url = Some response ->
    load (responseData (data response)) = Some loaded ->
    p_url page = url ->
    lengthOf (responseData (data response)) = Some (p_size page) ->
    safeName (p_filename page) ->
    Follow maxDepth (S currentDepth)
           (if currentDepth <? maxDepth then take 10 (linksOf loaded url) else [])
           (mark url currentDepth t) below t' ->
    Visit maxDepth url currentDepth t (page :: below) t'
with Follow (maxDepth : nat)
    : nat -> list string -> Trace -> list PageRecord -> Trace -> Prop :=
| Follow_done depth t :
    Follow maxDepth depth [] t [] t
| Follow_link depth link rest t t1 t' found more :
    Visit maxDepth link depth t found t1 ->
    Follow maxDepth depth rest t1 more t' ->
    Follow maxDepth depth (link :: rest) t (found ++ more) t'.

Scheme Visit_Follow_ind := Minimality for Visit Sort Prop
  with Follow_Visit_ind := Minimality for Follow Sort Prop.
Combined Scheme Visit_Follow_mutind from Visit_Follow_ind, Follow_Visit_ind.

(** A chain of [n] discovered links from one URL to another, each on a
    page that was served. *)
Inductive chain : nat -> string -> string -> Prop :=
| chain_here u : chain 0 u u
| chain_step n u v t issued response loaded :
    httpGet issued u = Some response ->
    load (responseData (data response)) = Some loaded ->
    v ∈ linksOf loaded u ->
    chain n v t ->
    chain (S n) u t.

(** [1 + 10 + ... + 10^d]: the nodes of a tree of depth [d] and fan-out 10. *)
Fixpoint treeBound (d : nat) : nat :=
  match d with
  | 0 => 1
  | S k => 1 + 10 * treeBound k
  end.

(** What the specification words as the Processor's link list: the
    targets of hyperlinks that are not fragment-only, not [mailto:] or
    [tel:], resolved against the page URL, on the page's own host. *)
Definition linkTarget (doc : Document) (baseUrl href u : string) : Prop :=
  mkElement TagA (Some href) ∈ doc /\
  Str.startsWith "#" href = false /\
  Str.startsWith "mailto:" href = false /\
  Str.startsWith "tel:" href = false /\
  urlResolve href baseUrl = Some u /\
  isSameDomain u baseUrl = true.

Definition specLink (doc : Document) (baseUrl u : string) : Prop :=
  exists href, linkTarget doc baseUrl href u.

(** A property of every asset record of every array of the world. *)
Definition recordsSatisfy (good : AssetRecord -> Prop) (w : World) : Prop :=
  Forall (Forall good) (arrays w).

(** The link an [a] element contributes, if any. *)
Definition accepted (baseUrl : string) (el : Element) : option string :=
  linkCallback baseUrl 0 el [] !! 0.

End CrawlShape.

(** ** Further definitions

    Notions the properties of the remaining code are stated with. *)

(** A name without a path separator. *)
Definition noSlash (s : string) : Prop := "/"%char ∉ Str.chars s.

(** The path of the file [archivePage] writes for a PageRecord. *)
Definition pagePath (archiveDir : string) (page : PageRecord) : string :=
  pathJoin (pathJoin archiveDir "pages") (p_filename page).

(** Nothing has left the disk between two worlds. *)
Definition diskGrows (w w' : World) : Prop :=
  dom (files w) ⊆ dom (files w') /\ dirs w ⊆ dirs w'.

(** The file of a PageRecord is on disk. *)
Definition onDisk (archiveDir : string) (w : World) (page : PageRecord) : Prop :=
  is_Some (files w !! pagePath archiveDir page).

Section Outcomes.
Context `{Platform}.

(** What the callback of an asset element does before its first [await]:
    the record it pushes from the [catch] when the reference does not
    resolve, and the URL whose download it starts when it does. *)
Definition unresolved (c : Category) (baseUrl : string) (el : Element)
    : option AssetRecord :=
  if selected c el then
    match ref el with
    | Some href =>
        if Str.truthy href then
          match urlResolve href baseUrl with
          | Some _ => None
          | None => Some (mkAsset c href failed None)
          end
        else None
    | None => None
    end
  else None.

Definition started (c : Category) (baseUrl : string) (el : Element) : option string :=
  if selected c el then
    match ref el with
    | Some href => if Str.truthy href then urlResolve href baseUrl else None
    | None => None
    end
  else None.

(** A step from [w] to [w'] spares the page file [f] of an archive: the
    visited set has grown, and the file is as it was unless a URL visited
    in between gives a page that very name. *)
Definition spares (archiveDir f : string) (w w' : World) : Prop :=
  visited w ⊆ visited w' /\
  ((forall u pathname,
      u ∈ visited w' -> (u ∉ visited w) -> urlPathname u = Some pathname ->
      pageFilename pathname <> f) ->
   files w' !! pathJoin (pathJoin archiveDir "pages") f
   = files w !! pathJoin (pathJoin archiveDir "pages") f).

End Outcomes.

(** ** The client

    The state updates of [frontend/app.js] that work on what the server
    replies. *)

Module Frontend.

(** [setArchives(prev => [newArchive, ...prev.filter(a => a.id !== newArchive.id)])]
    in [archiveUrl], for any shape of the entries and their [id]. *)
Definition addArchive {A : Type} (id : A -> string) (newArchive : A) (prev : list A)
    : list A :=
  newArchive :: List.filter (fun a => negb (String.eqb (id a) (id newArchive))) prev.

(** [archive.pages?.[0]] in [viewArchive]. *)
Definition mainPage (archivePages : list PageRecord) : option PageRecord :=
  head archivePages.

End Frontend.


(** The server of the small site with two archives in its index: the home
    page under [id1], then the page [p2] under [id2]. *)
Definition twice : World :=
  (@createArchive Site.platform "http://a.test/p2" "id2" Site.archived).2.
(** * Properties *)

(** ** File names *)

Lemma chars_map f s : Str.chars (Str.map f s) = f <$> Str.chars s.
Proof. induction s as [|c r IH]; simpl; [done | by rewrite IH]. Qed.

Lemma sanitizeChar_safe c : safeChar (sanitizeChar c) = true.
Proof.
  unfold sanitizeChar, safeChar. destruct (inClass c) eqn:E.
  - by rewrite E.
  - apply orb_true_r.
Qed.

Lemma sanitizeFilename_safe s : safeName (sanitizeFilename s).
Proof.
  unfold safeName, sanitizeFilename. rewrite chars_map.
  apply Forall_fmap, Forall_forall. intros c _. apply sanitizeChar_safe.
Qed.

Example sanitizeFilename_asset : assetFilename "/css/site v2.css" = "_css_site_v2.css".
Proof. reflexivity. Qed.

Example pageFilename_segment : pageFilename "/docs/a b.html" = "a_b.html".
Proof. reflexivity. Qed.

Example pageFilename_directory : pageFilename "/docs/" = "page.html".
Proof. reflexivity. Qed.

(** ** Frame: what the event loop and the Processor leave alone *)

Section Frame.
Context `{Platform}.

Lemma downloadResource_trace u dir rp issued w :
  trace (downloadResource u dir rp issued w).2 = trace w.
Proof.
  unfold downloadResource.
  repeat (case_match; simpl; try done).
Qed.

Lemma downloadResource_arrays u dir rp issued w :
  arrays (downloadResource u dir rp issued w).2 = arrays w.
Proof. unfold downloadResource. repeat (case_match; simpl; try done). Qed.

Lemma settle_trace t w : trace (settle t w) = trace w.
Proof.
  unfold settle.
  pose proof (downloadResource_trace (t_url t) (t_dir t) (resourcePath (t_cat t))
                (t_issued t) w) as Hd.
  destruct (downloadResource _ _ _ _ w) as [[r|] w1]; simpl in *; done.
Qed.

Lemma settle_all_trace ts w : trace (foldl (fun w t => settle t w) w ts) = trace w.
Proof.
  revert w. induction ts as [|t ts IH]; intros w; simpl; [done|].
  by rewrite IH, settle_trace.
Qed.

Lemma tick_trace w : trace (tick w) = trace w.
Proof. unfold tick. by rewrite settle_all_trace. Qed.

Lemma eachFrom_keeps {A} (P : World -> A) f :
  (forall i el w, P (f i el w) = P w) ->
  forall els i w, P (eachFrom i els f w) = P w.
Proof.
  intros Hf els. induction els as [|el els IH]; intros i w; simpl; [done|].
  by rewrite IH, Hf.
Qed.

Lemma assetCallback_trace c doc arr base dir i el w :
  trace (assetCallback c doc arr base dir i el w) = trace w.
Proof. unfold assetCallback. repeat (case_match; simpl; try done). Qed.

Lemma processLoaded_trace loaded base dir w :
  trace (processLoaded loaded base dir w).2 = trace w.
Proof.
  unfold processLoaded, each. simpl.
  rewrite !(eachFrom_keeps trace) by (intros; apply assetCallback_trace).
  done.
Qed.

Lemma processHtmlContent_trace html base dir w :
  trace (processHtmlContent html base dir w).2 = trace w.
Proof. apply processLoaded_trace. Qed.

Lemma processLoaded_links loaded base dir w :
  links (processLoaded loaded base dir w).1 = linksOf loaded base.
Proof. done. Qed.

Lemma processHtmlContent_links html base dir w :
  links (processHtmlContent html base dir w).1 = discovered html base.
Proof. done. Qed.

Lemma emptyResult_trace w : trace (emptyResult w).2 = trace w.
Proof. done. Qed.

Lemma emptyResult_pages w : pages (emptyResult w).1 = [].
Proof. done. Qed.

Lemma mkdir_trace dir w : trace (mkdir dir w).2 = trace w.
Proof. unfold mkdir. case_match; simpl; by rewrite tick_trace. Qed.

Lemma writeFile_trace p c w : trace (writeFile p c w).2 = trace w.
Proof. unfold writeFile. case_match; simpl; by rewrite tick_trace. Qed.

Lemma concat_trace a b w : trace (concat a b w).2 = trace w.
Proof. done. Qed.

End Frame.

(** ** The recursion of [archivePage] *)

Section Crawl.
Context `{Platform}.

Lemma foldl_followLink_ext recur1 recur2 ls acc :
  (forall link w, recur1 link w = recur2 link w) ->
  foldl (followLink recur1) acc ls = foldl (followLink recur2) acc ls.
Proof.
  intros Heq. revert acc. induction ls as [|l ls IH]; intros acc; simpl; [done|].
  rewrite IH. f_equal. destruct acc as [[ps a] w]. unfold followLink.
  by rewrite Heq.
Qed.

Lemma archiveBody_ext recur1 recur2 url dir md cd w :
  (cd < md -> forall link w, recur1 link w = recur2 link w) ->
  archiveBody recur1 url dir md cd w = archiveBody recur2 url dir md cd w.
Proof.
  intros Heq. unfold archiveBody.
  repeat (case_match; try done).
  - rewrite (foldl_followLink_ext recur1 recur2) in * by (apply Heq; by apply Nat.ltb_lt).
    congruence.
Qed.

(** [archivePage] satisfies the recursive equation of the source: its body,
    calling itself one level deeper. *)
Lemma archivePage_unfold url dir md cd w :
  archivePage url dir md cd w =
  archiveBody (fun link w => archivePage link dir md (S cd) w) url dir md cd w.
Proof.
  unfold archivePage at 1. destruct (md - cd) as [|rem] eqn:E; simpl.
  - apply archiveBody_ext. lia.
  - apply archiveBody_ext. intros _ link w'. unfold archivePage.
    by replace (md - S cd) with rem by lia.
Qed.

Lemma followLink_spec recur ps0 a0 w l :
  exists a1 w2,
    followLink recur (ps0, a0, w) l = (ps0 ++ pages (recur l w).1, a1, w2) /\
    trace w2 = trace (recur l w).2.
Proof.
  unfold followLink. destruct (recur l w) as [r w1]; simpl.
  eexists _, _. split; [reflexivity|]. simpl. apply tick_trace.
Qed.

Lemma followLink_Follow md depth recur :
  (forall link w,
     Visit md link depth (trace w) (pages (recur link w).1) (trace (recur link w).2)) ->
  forall ls ps0 a0 w,
  exists more,
    (foldl (followLink recur) (ps0, a0, w) ls).1.1 = ps0 ++ more /\
    Follow md depth ls (trace w) more (trace (foldl (followLink recur) (ps0, a0, w) ls).2).
Proof.
  intros Hrec ls. induction ls as [|l ls IH]; intros ps0 a0 w.
  - exists []. split; [by rewrite app_nil_r | constructor].
  - destruct (followLink_spec recur ps0 a0 w l) as (a1 & w2 & E & Ht).
    change (foldl (followLink recur) (ps0, a0, w) (l :: ls))
      with (foldl (followLink recur) (followLink recur (ps0, a0, w) l) ls).
    rewrite E. destruct (IH (ps0 ++ pages (recur l w).1) a1 w2) as (more & Hps & Hf).
    exists (pages (recur l w).1 ++ more). split.
    + by rewrite Hps, app_assoc.
    + econstructor; [apply Hrec|]. by rewrite <- Ht.
Qed.

Lemma archiveBody_Visit recur url dir md cd w :
  (cd < md -> forall link w,
     Visit md link (S cd) (trace w) (pages (recur link w).1) (trace (recur link w).2)) ->
  Visit md url cd (trace w) (pages (archiveBody recur url dir md cd w).1)
        (trace (archiveBody recur url dir md cd w).2).
Proof.
  intros Hrec. unfold archiveBody.
  destruct (bool_decide (url ∈ visited w) || (md <? cd)) eqn:Eguard.
  { rewrite emptyResult_trace. apply Visit_skip.
    apply orb_true_iff in Eguard as [Hv|Hd].
    - left. by apply bool_decide_eq_true in Hv.
    - right. by apply Nat.ltb_lt in Hd. }
  apply orb_false_iff in Eguard as [Hv Hd].
  apply bool_decide_eq_false in Hv. apply Nat.ltb_ge in Hd.
  cbv zeta.
  set (wc := setConsole _ (setVisited _ w)).
  set (wm := tick (setRequests _ wc)).
  assert (Hm : trace wm = mark url cd (trace w)).
  { unfold wm. by rewrite tick_trace. }
  clearbody wm. generalize (clock wc). clear wc. intros issued.
  destruct (httpGet issued url) as [response|] eqn:Eget;
    [|rewrite emptyResult_trace, Hm; by apply Visit_fail].
  destruct (load (responseData (data response))) as [loaded|] eqn:Eload;
    [|rewrite emptyResult_trace, tick_trace, Hm; by apply Visit_fail].
  pose proof (processLoaded_trace loaded url dir wm) as Hp.
  pose proof (processLoaded_links loaded url dir wm) as Hl.
  destruct (processLoaded loaded url dir wm) as [out w1].
  simpl in Hp, Hl.
  destruct (urlPathname url) as [pathname|];
    [|rewrite emptyResult_trace, tick_trace, Hp, Hm; by apply Visit_fail].
  set (htmlPath := pathJoin _ (pageFilename pathname)).
  pose proof (mkdir_trace (dirname htmlPath) (tick w1)) as Hmk.
  destruct (mkdir (dirname htmlPath) (tick w1)) as [made w2]. simpl in Hmk.
  rewrite tick_trace, Hp, Hm in Hmk.
  destruct made; cbn [negb]; [|rewrite emptyResult_trace, Hmk; by apply Visit_fail].
  pose proof (writeFile_trace htmlPath (Payload (processedHtml out)) w2) as Hwr.
  destruct (writeFile htmlPath (Payload (processedHtml out)) w2) as [written w3].
  simpl in Hwr. rewrite Hmk in Hwr.
  destruct written; cbn [negb]; [|rewrite emptyResult_trace, Hwr; by apply Visit_fail].
  destruct (lengthOf (responseData (data response))) as [size|] eqn:Elen;
    [|rewrite emptyResult_trace, Hwr; by apply Visit_fail].
  set (page := mkPage url _ _ _).
  destruct (cd <? md) eqn:Elt.
  - apply Nat.ltb_lt in Elt.
    destruct (followLink_Follow md (S cd) recur (Hrec Elt) (take 10 (links out))
                [page] (pr_assets out) w3) as (more & Hps & Hf).
    destruct (foldl _ _ _) as [[ps a] w4]. simpl in *. subst ps.
    eapply Visit_page with (response := response) (loaded := loaded); eauto.
    + apply sanitizeFilename_safe.
    + apply Nat.ltb_lt in Elt. rewrite Elt, <- Hl, <- Hwr. exact Hf.
  - simpl. eapply Visit_page with (response := response) (loaded := loaded); eauto.
    + apply sanitizeFilename_safe.
    + rewrite Elt, Hwr. constructor.
Qed.

(** A run of [archivePage] has the shape [Visit]. *)
Lemma archivePage_Visit url dir md cd w :
  Visit md url cd (trace w) (pages (archivePage url dir md cd w).1)
        (trace (archivePage url dir md cd w).2).
Proof.
  remember (md - cd) as rem eqn:E. revert url cd w E.
  induction rem as [|rem IH]; intros url cd w E;
    rewrite archivePage_unfold; apply archiveBody_Visit.
  - lia.
  - intros Hlt link w'. apply IH. lia.
Qed.

(** What a call has done when it returns the record of its page: the
    request issued at the moment of the call was answered, the body could
    be loaded and has a length, and the loop has run over the first ten
    links of the page, one level deeper, if a level remains. *)
Lemma archiveBody_page recur url dir md cd w page below :
  (cd < md -> forall link w,
     Visit md link (S cd) (trace w) (pages (recur link w).1) (trace (recur link w).2)) ->
  pages (archiveBody recur url dir md cd w).1 = page :: below ->
  exists response loaded pathname size stamp,
    (url ∉ visited w) /\ cd <= md /\
    httpGet (clock w) url = Some response /\
    load (responseData (data response)) = Some loaded /\
    urlPathname url = Some pathname /\
    lengthOf (responseData (data response)) = Some size /\
    page = mkPage url (pageFilename pathname) size stamp /\
    Follow md (S cd) (if cd <? md then take 10 (linksOf loaded url) else [])
           (mark url cd (trace w)) below
           (trace (archiveBody recur url dir md cd w).2).
Proof.
  intros Hrec. unfold archiveBody.
  destruct (bool_decide (url ∈ visited w) || (md <? cd)) eqn:Eguard; [done|].
  apply orb_false_iff in Eguard as [Hv Hd].
  apply bool_decide_eq_false in Hv. apply Nat.ltb_ge in Hd.
  cbv zeta.
  set (wc := setConsole _ (setVisited _ w)).
  set (wm := tick (setRequests _ wc)).
  assert (Hm : trace wm = mark url cd (trace w)).
  { unfold wm. by rewrite tick_trace. }
  change (clock wc) with (clock w). clearbody wm. clear wc.
  destruct (httpGet (clock w) url) as [response|] eqn:Eget; [|done].
  destruct (load (responseData (data response))) as [loaded|] eqn:Eload; [|done].
  pose proof (processLoaded_trace loaded url dir wm) as Hp.
  pose proof (processLoaded_links loaded url dir wm) as Hl.
  destruct (processLoaded loaded url dir wm) as [out w1].
  simpl in Hp, Hl.
  destruct (urlPathname url) as [pathname|]; [|done].
  set (htmlPath := pathJoin _ (pageFilename pathname)).
  pose proof (mkdir_trace (dirname htmlPath) (tick w1)) as Hmk.
  destruct (mkdir (dirname htmlPath) (tick w1)) as [made w2]. simpl in Hmk.
  rewrite tick_trace, Hp, Hm in Hmk.
  destruct made; cbn [negb]; [|done].
  pose proof (writeFile_trace htmlPath (Payload (processedHtml out)) w2) as Hwr.
  destruct (writeFile htmlPath (Payload (processedHtml out)) w2) as [written w3].
  simpl in Hwr. rewrite Hmk in Hwr.
  destruct written; cbn [negb]; [|done].
  destruct (lengthOf (responseData (data response))) as [size|] eqn:Elen; [|done].
  destruct (cd <? md) eqn:Elt.
  - apply Nat.ltb_lt in Elt.
    destruct (followLink_Follow md (S cd) recur (Hrec Elt) (take 10 (links out))
                [mkPage url (pageFilename pathname) size (clock w3)]
                (pr_assets out) w3) as (more & Hps & Hf).
    destruct (foldl _ _ _) as [[ps a] w4]. simpl in *. subst ps.
    intros [= <- <-]. exists response, loaded, pathname, size, (clock w3).
    repeat split; try done. by rewrite <- Hl, <- Hwr.
  - simpl. intros [= <- <-]. exists response, loaded, pathname, size, (clock w3).
    repeat split; try done. rewrite Hwr. constructor.
Qed.

Lemma archivePage_page url dir md cd w page below :
  pages (archivePage url dir md cd w).1 = page :: below ->
  exists response loaded pathname size stamp,
    (url ∉ visited w) /\ cd <= md /\
    httpGet (clock w) url = Some response /\
    load (responseData (data response)) = Some loaded /\
    urlPathname url = Some pathname /\
    lengthOf (responseData (data response)) = Some size /\
    page = mkPage url (pageFilename pathname) size stamp /\
    Follow md (S cd) (if cd <? md then take 10 (linksOf loaded url) else [])
           (mark url cd (trace w)) below (trace (archivePage url dir md cd w).2).
Proof.
  rewrite archivePage_unfold. apply archiveBody_page.
  intros _ link w'. apply archivePage_Visit.
Qed.

End Crawl.

(** ** Invariants of a run, by induction on its shape *)

Section Invariants.
Context `{Platform}.

(** The requests a run adds are pairwise distinct, were not visited before
    it and are visited after it. *)
Lemma Visit_requests md :
  (forall url cd t ps t', Visit md url cd t ps t' ->
     seen t ⊆ seen t' /\
     exists new, asked t' = asked t ++ new /\ NoDup new /\
                 Forall (fun u => (u ∉ seen t) /\ (u ∈ seen t')) new) /\
  (forall depth ls t ps t', Follow md depth ls t ps t' ->
     seen t ⊆ seen t' /\
     exists new, asked t' = asked t ++ new /\ NoDup new /\
                 Forall (fun u => (u ∉ seen t) /\ (u ∈ seen t')) new).
Proof.
  apply Visit_Follow_mutind.
  - intros url cd t _. split; [set_solver|]. exists [].
    rewrite app_nil_r. repeat split; constructor.
  - intros url cd t Hv _. split; [simpl; set_solver|].
    exists [url]. split; [done|]. split; [apply NoDup_singleton|].
    apply Forall_singleton. simpl. set_solver.
  - intros url cd t t' issued response loaded page below Hv _ _ _ _ _ _ _
      (Hsub & new & Hasked & Hnd & Hall).
    simpl in Hsub, Hasked, Hall. split; [set_solver|].
    exists (url :: new). split; [by rewrite Hasked, <- app_assoc|]. split.
    + apply NoDup_cons. split; [|done].
      intros Hin. rewrite Forall_forall in Hall. apply Hall in Hin. set_solver.
    + apply Forall_cons. split; [set_solver|].
      eapply Forall_impl; [exact Hall|]. simpl. set_solver.
  - intros depth t. split; [set_solver|]. exists [].
    rewrite app_nil_r. repeat split; constructor.
  - intros depth link rest t t1 t' found more _ (Hs1 & n1 & Ha1 & Hd1 & Hf1)
      _ (Hs2 & n2 & Ha2 & Hd2 & Hf2).
    split; [set_solver|]. exists (n1 ++ n2).
    split; [by rewrite Ha2, Ha1, <- app_assoc|]. split.
    + apply NoDup_app. split; [done|]. split; [|done].
      intros u Hu1 Hu2. rewrite Forall_forall in Hf1, Hf2.
      apply Hf1 in Hu1. apply Hf2 in Hu2. set_solver.
    + apply Forall_app. split.
      * eapply Forall_impl; [exact Hf1|]. simpl. set_solver.
      * eapply Forall_impl; [exact Hf2|]. simpl. set_solver.
Qed.


(** *** Discovered links *)

Lemma linkCallback_app base i el acc :
  linkCallback base i el acc = acc ++ option_list (accepted base el).
Proof.
  unfold accepted, linkCallback.
  repeat (case_match; simpl; try by rewrite ?app_nil_r).
Qed.

Lemma eachFrom_links base els i acc :
  eachFrom i els (linkCallback base) acc = acc ++ omap (accepted base) els.
Proof.
  revert i acc. induction els as [|el els IH]; intros i acc; simpl.
  - by rewrite app_nil_r.
  - rewrite IH, linkCallback_app, <- app_assoc. f_equal.
    by destruct (accepted base el).
Qed.

Lemma accepted_Some base el u :
  accepted base el = Some u <->
  exists href, el = mkElement TagA (Some href) /\ href <> "" /\
    Str.startsWith "#" href = false /\
    Str.startsWith "mailto:" href = false /\
    Str.startsWith "tel:" href = false /\
    urlResolve href base = Some u /\
    isSameDomain u base = true.
Proof.
  unfold accepted, linkCallback. destruct el as [tg [href|]]; simpl.
  2: { split; [by destruct tg|]. intros (? & ? & _); congruence. }
  destruct tg; try (split; [done|]; intros (? & ? & _); congruence).
  split.
  - destruct href as [|c href']; [done|]. cbn [Str.truthy andb].
    destruct (Str.startsWith "#" _) eqn:E1; [done|].
    destruct (Str.startsWith "mailto:" _) eqn:E2; [done|].
    destruct (Str.startsWith "tel:" _) eqn:E3; [done|]. cbn [negb andb].
    destruct (urlResolve _ base) as [full|] eqn:E4; [|done].
    destruct (isSameDomain full base) eqn:E5; [|done].
    simpl. intros [= <-]. exists (String c href'). naive_solver.
  - intros (h & [= <-] & Hne & E1 & E2 & E3 & E4 & E5).
    destruct href as [|c href']; [done|]. cbn [Str.truthy andb].
    rewrite E1, E2, E3, E4, E5. done.
Qed.

Lemma elem_of_List_filter {A} (f : A -> bool) l x :
  x ∈ List.filter f l <-> x ∈ l /\ f x = true.
Proof. rewrite !list_elem_of_In. apply filter_In. Qed.

Lemma uniq_elem_of l (u : string) : u ∈ uniq l <-> u ∈ l.
Proof.
  induction l as [|x l IH]; simpl; [done|].
  rewrite !elem_of_cons, elem_of_List_filter, IH.
  destruct (String.eqb_spec x u) as [->|Hne]; simpl; naive_solver.
Qed.

Lemma uniq_NoDup l : NoDup (uniq l).
Proof.
  induction l as [|x l IH]; simpl; [constructor|].
  apply NoDup_cons. split.
  - rewrite elem_of_List_filter, String.eqb_refl. naive_solver.
  - apply NoDup_ListNoDup, List.NoDup_filter, NoDup_ListNoDup, IH.
Qed.

Lemma linksOf_elem_of loaded base u :
  u ∈ linksOf loaded base <->
  exists href, href <> "" /\ linkTarget loaded base href u.
Proof.
  unfold linksOf, each, linkTarget.
  rewrite uniq_elem_of, eachFrom_links, app_nil_l, list_elem_of_omap.
  split.
  - intros (el & Hel & Hacc). apply accepted_Some in Hacc as (href & -> & Hrest).
    exists href. naive_solver.
  - intros (href & Hne & Hel & Hrest). exists (mkElement TagA (Some href)).
    split; [done|]. apply accepted_Some. exists href. naive_solver.
Qed.

Lemma discovered_elem_of html base u :
  u ∈ discovered html base <->
  exists href, href <> "" /\ linkTarget (parseHtml html) base href u.
Proof. apply linksOf_elem_of. Qed.

Lemma linksOf_sameDomain loaded base u :
  u ∈ linksOf loaded base -> isSameDomain u base = true.
Proof. rewrite linksOf_elem_of. unfold linkTarget. naive_solver. Qed.

Lemma isSameDomain_trans u v t :
  isSameDomain u v = true -> isSameDomain v t = true -> isSameDomain u t = true.
Proof.
  unfold isSameDomain.
  destruct (urlHostname u), (urlHostname v), (urlHostname t); try done.
  rewrite !bool_decide_eq_true. congruence.
Qed.

(** *** Scope, depth, fan-out and size of a run *)

(** Every request of a run is for its URL or for a URL on the same host. *)
Lemma Visit_sameDomain md :
  (forall url cd t ps t', Visit md url cd t ps t' ->
     exists new, asked t' = asked t ++ new /\
       Forall (fun u => u = url \/ isSameDomain u url = true) new) /\
  (forall depth ls t ps t', Follow md depth ls t ps t' ->
     exists new, asked t' = asked t ++ new /\
       Forall (fun u => exists l, l ∈ ls /\ (u = l \/ isSameDomain u l = true)) new).
Proof.
  apply Visit_Follow_mutind.
  - intros. exists []. by rewrite app_nil_r.
  - intros url cd t _ _. exists [url]. split; [done|]. apply Forall_singleton. by left.
  - intros url cd t t' issued response loaded page more _ _ Hget Hload _ _ _ _
      (new & Hasked & Hall).
    exists (url :: new). split; [by rewrite Hasked; simpl; rewrite <- app_assoc|].
    apply Forall_cons. split; [by left|].
    eapply Forall_impl; [exact Hall|]. intros u (l & Hl & Hu). right.
    assert (isSameDomain l url = true) as Hlu.
    { destruct (cd <? md); [|by apply elem_of_nil in Hl].
      eapply linksOf_sameDomain, (subseteq_take 10), Hl. }
    destruct Hu as [->|Hu]; [done|]. by eapply isSameDomain_trans.
  - intros. exists []. by rewrite app_nil_r.
  - intros depth link rest t t1 t' found more _ (n1 & Ha1 & Hf1) _ (n2 & Ha2 & Hf2).
    exists (n1 ++ n2). split; [by rewrite Ha2, Ha1, <- app_assoc|].
    apply Forall_app. split.
    + eapply Forall_impl; [exact Hf1|]. intros u Hu. exists link. set_solver.
    + eapply Forall_impl; [exact Hf2|]. intros u (l & Hl & Hu). exists l. set_solver.
Qed.

Lemma filter_none {A} (P : A -> Prop) `{forall x, Decision (P x)} (l : list A) :
  Forall (fun x => ~ P x) l -> filter P l = [].
Proof.
  induction 1 as [|x l Hx _ IH]; [done|].
  rewrite filter_cons, IH. by case_decide.
Qed.

(** The console lines of a run carry depths between that of the call and
    [maxDepth], at most one at the depth of the call and at most ten one
    level below. *)
Lemma Visit_console md :
  (forall url cd t ps t', Visit md url cd t ps t' ->
     exists new, said t' = said t ++ new /\
       Forall (fun e => cd <= e.2 <= md) new /\
       length (filter (fun e => e.2 = cd) new) <= 1 /\
       length (filter (fun e => e.2 = S cd) new) <= 10) /\
  (forall depth ls t ps t', Follow md depth ls t ps t' ->
     exists new, said t' = said t ++ new /\
       Forall (fun e => depth <= e.2 <= md) new /\
       length (filter (fun e => e.2 = depth) new) <= length ls).
Proof.
  apply Visit_Follow_mutind.
  - intros. exists []. rewrite app_nil_r. repeat split; simpl; try constructor; lia.
  - intros url cd t _ Hle. exists [(url, cd)]. split; [done|].
    split; [apply Forall_singleton; simpl; lia|].
    rewrite !filter_cons, !filter_nil. split; repeat case_decide; simpl; lia.
  - intros url cd t t' issued response loaded page more _ Hle _ _ _ _ _ _
      (new & Hsaid & Hall & Hcount).
    exists ((url, cd) :: new). split; [by rewrite Hsaid; simpl; rewrite <- app_assoc|].
    split; [apply Forall_cons; split; [simpl; lia|];
            eapply Forall_impl; [exact Hall|]; simpl; lia|].
    assert (filter (fun e : string * nat => e.2 = cd) new = []) as Hnone.
    { apply filter_none. eapply Forall_impl; [exact Hall|]. simpl. lia. }
    rewrite !filter_cons, Hnone. split; [case_decide; simpl; lia|].
    assert (length (if cd <? md then take 10 (linksOf loaded url) else [])
            <= 10) as Hten.
    { destruct (cd <? md); [rewrite length_take|simpl]; lia. }
    case_decide; simpl in *; lia.
  - intros. exists []. rewrite app_nil_r. repeat split; simpl; try constructor; lia.
  - intros depth link rest t t1 t' found more _ (n1 & Ha1 & Hf1 & Hc1 & _)
      _ (n2 & Ha2 & Hf2 & Hc2).
    exists (n1 ++ n2). split; [by rewrite Ha2, Ha1, <- app_assoc|].
    split; [by apply Forall_app|].
    rewrite filter_app, length_app. simpl. lia.
Qed.

(** The console lines of a run at the depth of the call are for its URL,
    and those of a loop at its depth are for links of its list, in the
    order of the list. *)
Lemma Visit_lines md :
  (forall url cd t ps t', Visit md url cd t ps t' ->
     exists lines, said t' = said t ++ lines /\
       Forall (fun e => cd <= e.2 <= md) lines /\
       (filter (fun e => e.2 = cd) lines).*1 `sublist_of` [url]) /\
  (forall depth ls t ps t', Follow md depth ls t ps t' ->
     exists lines, said t' = said t ++ lines /\
       Forall (fun e => depth <= e.2 <= md) lines /\
       (filter (fun e => e.2 = depth) lines).*1 `sublist_of` ls).
Proof.
  apply Visit_Follow_mutind.
  - intros. exists []. rewrite app_nil_r. repeat split; [constructor|apply sublist_nil_l].
  - intros url cd t _ Hle. exists [(url, cd)]. split; [done|].
    split; [apply Forall_singleton; simpl; lia|].
    rewrite filter_cons, filter_nil. by case_decide.
  - intros url cd t t' issued response loaded page more _ Hle _ _ _ _ _ _
      (lines & Hsaid & Hall & _).
    exists ((url, cd) :: lines).
    split; [by rewrite Hsaid; simpl; rewrite <- app_assoc|].
    split; [apply Forall_cons; split; [simpl; lia|];
            eapply Forall_impl; [exact Hall|]; simpl; lia|].
    assert (filter (fun e : string * nat => e.2 = cd) lines = []) as Hnone.
    { apply filter_none. eapply Forall_impl; [exact Hall|]. simpl. lia. }
    rewrite filter_cons, Hnone. by case_decide.
  - intros. exists []. rewrite app_nil_r. repeat split; [constructor|apply sublist_nil_l].
  - intros depth link rest t t1 t' found more _ (n1 & Ha1 & Hf1 & Hs1)
      _ (n2 & Ha2 & Hf2 & Hs2).
    exists (n1 ++ n2). split; [by rewrite Ha2, Ha1, <- app_assoc|].
    split; [by apply Forall_app|].
    rewrite filter_app, fmap_app. change (link :: rest) with ([link] ++ rest).
    by apply sublist_app.
Qed.

(** Every page of a run is reached from its URL by a chain of discovered
    links that stays within the depth limit. *)
Lemma Visit_chain md :
  (forall url cd t ps t', Visit md url cd t ps t' ->
     Forall (fun p => exists n, cd + n <= md /\ chain n url (p_url p)) ps) /\
  (forall depth ls t ps t', Follow md depth ls t ps t' ->
     Forall (fun p => exists l n, l ∈ ls /\ depth + n <= md /\ chain n l (p_url p)) ps).
Proof.
  apply Visit_Follow_mutind.
  - constructor.
  - constructor.
  - intros url cd t t' issued response loaded page more _ Hle Hget Hload Hurl _ _ _ Hall.
    apply Forall_cons. split.
    + exists 0. split; [lia|]. rewrite Hurl. constructor.
    + eapply Forall_impl; [exact Hall|]. intros p (l & n & Hl & Hn & Hc).
      exists (S n). split; [lia|].
      destruct (cd <? md); [|by apply elem_of_nil in Hl].
      eapply chain_step; [exact Hget|exact Hload| |exact Hc].
      eapply (subseteq_take 10), Hl.
  - constructor.
  - intros depth link rest t t1 t' found more _ Hf1 _ Hf2.
    apply Forall_app. split.
    + eapply Forall_impl; [exact Hf1|]. intros p (n & Hn & Hc).
      exists link, n. set_solver.
    + eapply Forall_impl; [exact Hf2|]. intros p (l & n & Hl & Hn & Hc).
      exists l, n. set_solver.
Qed.

Lemma treeBound_pos d : 1 <= treeBound d.
Proof. destruct d; simpl; lia. Qed.

(** A run yields no more pages than a tree of the remaining depth and
    fan-out ten has nodes. *)
Lemma Visit_size md :
  (forall url cd t ps t', Visit md url cd t ps t' ->
     length ps <= treeBound (md - cd)) /\
  (forall depth ls t ps t', Follow md depth ls t ps t' ->
     length ps <= length ls * treeBound (md - depth)).
Proof.
  apply Visit_Follow_mutind.
  - intros. simpl. lia.
  - intros. simpl. lia.
  - intros url cd t t' issued response loaded page more _ Hle _ _ _ _ _ _ Hlen.
    simpl. destruct (cd <? md) eqn:Elt.
    + apply Nat.ltb_lt in Elt. replace (md - cd) with (S (md - S cd)) by lia.
      simpl.
      assert (length (take 10 (linksOf loaded url)) <= 10)
        by (rewrite length_take; lia).
      nia.
    + simpl in Hlen. pose proof (treeBound_pos (md - cd)). lia.
  - intros. simpl. lia.
  - intros depth link rest t t1 t' found more _ H1 _ H2.
    rewrite length_app. simpl. lia.
Qed.

(** A run leaves the in-memory index alone. *)
Lemma Visit_kept md :
  (forall url cd t ps t', Visit md url cd t ps t' -> kept t' = kept t) /\
  (forall depth ls t ps t', Follow md depth ls t ps t' -> kept t' = kept t).
Proof. apply Visit_Follow_mutind; intros; simpl in *; congruence. Qed.

(** The file name of every page of a run is safe. *)
Lemma Visit_filenames md :
  (forall url cd t ps t', Visit md url cd t ps t' ->
     Forall (fun p => safeName (p_filename p)) ps) /\
  (forall depth ls t ps t', Follow md depth ls t ps t' ->
     Forall (fun p => safeName (p_filename p)) ps).
Proof.
  apply Visit_Follow_mutind; intros; try constructor; try done.
  by apply Forall_app.
Qed.

End Invariants.

(** ** The Crawl Orchestrator *)

Section Orchestrator.
Context `{Platform}.

Lemma Visit_seen md url cd t ps t' :
  Visit md url cd t ps t' -> cd <= md -> url ∈ seen t'.
Proof.
  intros Hv Hle.
  destruct Hv as [url cd t [Hin|Hgt] | url cd t _ _
                 | url cd t t' issued response loaded page more _ _ _ _ _ _ _ Hf].
  - done.
  - lia.
  - simpl. set_solver.
  - apply (proj2 (Visit_requests md)) in Hf as [Hsub _]. simpl in Hsub. set_solver.
Qed.

Lemma archivePage_visited url dir md cd w :
  cd <= md -> url ∈ visited (archivePage url dir md cd w).2.
Proof.
  intros Hle. exact (Visit_seen _ _ _ _ _ _ (archivePage_Visit url dir md cd w) Hle).
Qed.

Lemma archivePage_already_visited url dir md cd w :
  url ∈ visited w -> archivePage url dir md cd w = emptyResult w.
Proof.
  intros Hin. rewrite archivePage_unfold. unfold archiveBody.
  by rewrite (bool_decide_eq_true_2 _ Hin).
Qed.

(** C1 — No URL is fetched more than once in a crawl run.  The page
    requests a crawl started by [archivePage(url, archiveDir)] adds are
    pairwise distinct; for every invocation of [archivePage], the requests
    it adds are distinct, for URLs that were not in the visited set before
    it and are in it afterwards; an invocation within the depth limit
    leaves its [url] in the visited set; and an invocation whose [url] is
    already in the visited set returns the empty result, the requests
    untouched. *)
Theorem no_url_fetched_twice url dir md cd k w :
  (exists new,
     requests (archiveSite url dir w).2 = requests w ++ new /\ NoDup new) /\
  (exists new,
     requests (archivePage url dir md cd w).2 = requests w ++ new /\ NoDup new /\
     Forall (fun u => (u ∉ visited w) /\ (u ∈ visited (archivePage url dir md cd w).2))
            new) /\
  url ∈ visited (archivePage url dir (cd + k) cd w).2 /\
  archivePage url dir md cd (setVisited ({[url]} ∪ visited w) w)
  = emptyResult (setVisited ({[url]} ∪ visited w) w) /\
  requests (emptyResult (setVisited ({[url]} ∪ visited w) w)).2 = requests w.
Proof.
  repeat split.
  - unfold archiveSite.
    destruct (proj1 (Visit_requests 2) _ _ _ _ _
                (archivePage_Visit url dir 2 0 (setVisited ∅ w)))
      as (_ & new & Hasked & Hnd & _).
    exists new. split; [exact Hasked | exact Hnd].
  - destruct (proj1 (Visit_requests md) _ _ _ _ _ (archivePage_Visit url dir md cd w))
      as (_ & new & Hasked & Hnd & Hall).
    exists new. repeat split; [exact Hasked | exact Hnd | exact Hall].
  - apply archivePage_visited. lia.
  - apply archivePage_already_visited. simpl. set_solver.
Qed.

Lemma Visit_asks_first md url cd t ps t' :
  Visit md url cd t ps t' -> url ∉ seen t -> cd <= md ->
  exists rest, asked t' = asked t ++ url :: rest.
Proof.
  intros Hv Hn Hle.
  destruct Hv as [url cd t [Hin|Hgt] | url cd t _ _
                 | url cd t t' issued response loaded page more _ _ _ _ _ _ _ Hf].
  - done.
  - lia.
  - by exists [].
  - destruct (proj2 (Visit_requests _) _ _ _ _ _ Hf) as (_ & new & Ha & _).
    exists new. rewrite Ha. simpl. by rewrite <- app_assoc.
Qed.

(** The links of a loop within the depth limit are all visited after it. *)
Lemma Follow_seen md depth ls t ps t' :
  Follow md depth ls t ps t' -> depth <= md -> Forall (fun link => link ∈ seen t') ls.
Proof.
  intros Hf Hle. induction Hf as [|depth link rest t t1 t' found more Hv Hf IH];
    [constructor|].
  apply Forall_cons. split; [|by apply IH].
  apply (proj2 (Visit_requests md)) in Hf as [Hsub _].
  apply Hsub. by eapply Visit_seen.
Qed.

Lemma archivePage_fetch_fails url dir md cd w :
  httpGet (clock w) url = None ->
  exists w0, archivePage url dir md cd w = emptyResult w0 /\
             (url ∈ visited w \/ md < cd -> w0 = w) /\
             ((url ∉ visited w) -> cd <= md -> trace w0 = mark url cd (trace w)).
Proof.
  intros Hget. rewrite archivePage_unfold. unfold archiveBody.
  destruct (bool_decide (url ∈ visited w) || (md <? cd)) eqn:Eguard.
  - exists w. split; [done|]. split; [done|]. intros Hn Hle.
    apply orb_true_iff in Eguard as [Hv%bool_decide_eq_true|Hd%Nat.ltb_lt]; [done|lia].
  - apply orb_false_iff in Eguard as [Hv%bool_decide_eq_false Hd%Nat.ltb_ge].
    cbv zeta. simpl clock. rewrite Hget. eexists. split; [reflexivity|].
    split; [intros [?|?]; [done|lia]|]. intros _ _. by rewrite tick_trace.
Qed.

(** C6 — When the request for a page fails, [archivePage] returns the
    empty result for that node: no PageRecord, an empty asset array, the
    URL marked as visited and requested once.  Nothing is raised: the
    result is an ordinary return value, and the loop over the links of the
    parent goes on from the pages gathered so far: it keeps them, it
    leaves every remaining link visited, and the request that follows the
    failed one is that of the next link, if that one was not visited. *)
Theorem fetch_error_gives_empty_result url dir md cd w :
  httpGet (clock w) url = None ->
  (exists w0, archivePage url dir md cd w = emptyResult w0) /\
  pages (archivePage url dir md cd w).1 = [] /\
  readArray (assets (archivePage url dir md cd w).1) (archivePage url dir md cd w).2 = [] /\
  ((url ∉ visited w) -> cd <= md ->
   trace (archivePage url dir md cd w).2 = mark url cd (trace w)) /\
  forall allPages allAssets rest,
    let loop := foldl (followLink (fun link w => archivePage link dir md cd w)) in
    (exists allAssets' w',
       loop (allPages, allAssets, w) (url :: rest) = loop (allPages, allAssets', w') rest /\
       trace w' = trace (archivePage url dir md cd w).2) /\
    (exists more, (loop (allPages, allAssets, w) (url :: rest)).1.1 = allPages ++ more) /\
    (cd <= md ->
     Forall (fun link => link ∈ visited (loop (allPages, allAssets, w) (url :: rest)).2)
            (url :: rest)) /\
    (forall sibling rest',
       rest = sibling :: rest' ->
       (url ∉ visited w) -> (sibling ∉ visited w) -> sibling <> url -> cd <= md ->
       exists later,
         requests (loop (allPages, allAssets, w) (url :: rest)).2
         = requests w ++ url :: sibling :: later).
Proof.
  intros Hget.
  destruct (archivePage_fetch_fails url dir md cd w Hget) as (w0 & E & Hsame & Hmark).
  split; [by exists w0|]. split; [by rewrite E|]. split; [|split].
  - rewrite E. unfold emptyResult, newArray, readArray. simpl.
    by rewrite lookup_app_r, Nat.sub_diag by lia.
  - intros Hn Hle. rewrite E. by apply Hmark.
  - intros ps a rest loop. unfold loop.
    set (recur := fun link w => archivePage link dir md cd w).
    assert (forall link w, Visit md link cd (trace w) (pages (recur link w).1)
                                 (trace (recur link w).2)) as Hrec
      by (intros link w1; apply archivePage_Visit).
    destruct (followLink_spec recur ps a w url) as (a1 & w2 & Ef & Ht).
    change (foldl (followLink recur) (ps, a, w) (url :: rest))
      with (foldl (followLink recur) (followLink recur (ps, a, w) url) rest).
    assert (pages (recur url w).1 = []) as Hnone by (unfold recur; by rewrite E).
    rewrite Ef, Hnone, app_nil_r.
    split; [by exists a1, w2|].
    destruct (followLink_Follow md cd recur Hrec rest ps a1 w2) as (more & Hps & Hf).
    split; [by exists more|]. split.
    + intros Hle. apply Forall_cons. split; [|exact (Follow_seen _ _ _ _ _ _ Hf Hle)].
      apply (proj2 (Visit_requests md)) in Hf as [Hsub _]. apply Hsub.
      rewrite Ht. unfold recur. apply (archivePage_visited url dir md cd w Hle).
    + intros sibling rest' -> Hn Hs Hne Hle.
      destruct (followLink_spec recur ps a1 w2 sibling) as (a2 & w3 & Ef2 & Ht2).
      change (foldl (followLink recur) (ps, a1, w2) (sibling :: rest'))
        with (foldl (followLink recur) (followLink recur (ps, a1, w2) sibling) rest').
      rewrite Ef2.
      destruct (followLink_Follow md cd recur Hrec rest'
                  (ps ++ pages (recur sibling w2).1) a2 w3) as (more' & _ & Hf').
      apply (proj2 (Visit_requests md)) in Hf' as (_ & later & Hlater & _).
      assert (trace w2 = mark url cd (trace w)) as Hw2.
      { rewrite Ht. unfold recur. rewrite E. by apply Hmark. }
      clear Hnone.
      destruct (Visit_asks_first md sibling cd (trace w2) _ _ (Hrec sibling w2))
        as (r & Hr); [rewrite Hw2; simpl; set_solver|exact Hle|].
      assert (asked (trace w3) = asked (trace w) ++ url :: sibling :: r) as H3.
      { rewrite Ht2, Hr, Hw2. simpl. by rewrite <- app_assoc. }
      exists (r ++ later). etrans; [exact Hlater|]. rewrite H3.
      by rewrite <- app_assoc.
Qed.

(** C3 — Depth limit and fan-out cap.  [archivePage] is its body calling
    itself at [currentDepth + 1], and a run of it has the shape [Visit]:
    a call that returns the record of its page has run the loop over the
    first ten links of the page, in their order, each at
    [currentDepth + 1] on the trace the one before has left, and over no
    link when [currentDepth < maxDepth] fails.  Those links, [children],
    are all visited afterwards, and the console lines at
    [currentDepth + 1] are for links among them, in their order.  Hence
    the console lines of a run carry depths from [currentDepth] to
    [maxDepth], one at most at the depth of the call and ten at most one
    level below; every PageRecord is reached from [url] by a chain of
    discovered links within the levels that remain; and the PageRecords
    are no more than the nodes of a tree of that depth and fan-out ten. *)
Theorem depth_limit_and_fan_out url dir md cd w :
  archivePage url dir md cd w
  = archiveBody (fun link w => archivePage link dir md (S cd) w) url dir md cd w /\
  Visit md url cd (trace w) (pages (archivePage url dir md cd w).1)
        (trace (archivePage url dir md cd w).2) /\
  (forall page below,
     pages (archivePage url dir md cd w).1 = page :: below ->
     exists response loaded,
       httpGet (clock w) url = Some response /\
       load (responseData (data response)) = Some loaded /\
       let children := if cd <? md then take 10 (linksOf loaded url) else [] in
       Follow md (S cd) children (mark url cd (trace w)) below
              (trace (archivePage url dir md cd w).2) /\
       Forall (fun link => link ∈ visited (archivePage url dir md cd w).2) children /\
       exists lines,
         console (archivePage url dir md cd w).2 = console w ++ (url, cd) :: lines /\
         Forall (fun e => S cd <= e.2 <= md) lines /\
         (filter (fun e => e.2 = S cd) lines).*1 `sublist_of` children) /\
  (exists new,
     console (archivePage url dir md cd w).2 = console w ++ new /\
     Forall (fun e => cd <= e.2 <= md) new /\
     length (filter (fun e => e.2 = cd) new) <= 1 /\
     length (filter (fun e => e.2 = S cd) new) <= 10) /\
  Forall (fun p => exists n, cd + n <= md /\ chain n url (p_url p))
         (pages (archivePage url dir md cd w).1) /\
  length (pages (archivePage url dir md cd w).1) <= treeBound (md - cd).
Proof.
  pose proof (archivePage_Visit url dir md cd w) as Hv.
  split; [apply archivePage_unfold|]. split; [exact Hv|]. split; [|split; [|split]].
  - intros page below Hpages.
    destruct (archivePage_page url dir md cd w page below Hpages)
      as (response & loaded & pathname & size & stamp & _ & Hle & Hget & Hload & _ & _ & _
          & Hf).
    exists response, loaded. split; [exact Hget|]. split; [exact Hload|].
    intros children. split; [exact Hf|]. split.
    + destruct (cd <? md) eqn:Elt; [|constructor].
      apply Nat.ltb_lt in Elt. exact (Follow_seen _ _ _ _ _ _ Hf Elt).
    + destruct (proj2 (Visit_lines md) _ _ _ _ _ Hf) as (lines & Hsaid & Hall & Hsub).
      exists lines. split; [|by split].
      simpl in Hsaid. by rewrite Hsaid, <- app_assoc.
  - apply (proj1 (Visit_console md)) in Hv. exact Hv.
  - apply (proj1 (Visit_chain md)) in Hv. exact Hv.
  - apply (proj1 (Visit_size md)) in Hv. exact Hv.
Qed.

End Orchestrator.

(** ** The Content Processor *)

Section Processor.
Context `{Platform}.

(** C4, as amended — The link list the Processor returns holds exactly
    the targets of the hyperlinks whose [href] is not empty, does not
    start with a number sign, [mailto:] or [tel:], resolves against the
    page URL, and resolves to a URL whose hostname equals that of the page;
    it holds each once.  Every page request of a crawl is for the URL the
    crawl was called on or for a URL with the hostname of that URL. *)
Theorem processor_links html baseUrl archiveDir url maxDepth currentDepth w :
  (forall u,
     u ∈ links (processHtmlContent html baseUrl archiveDir w).1 <->
     exists href, href <> "" /\ linkTarget (parseHtml html) baseUrl href u) /\
  NoDup (links (processHtmlContent html baseUrl archiveDir w).1) /\
  exists new,
    requests (archivePage url archiveDir maxDepth currentDepth w).2 = requests w ++ new /\
    Forall (fun u => u = url \/ isSameDomain u url = true) new.
Proof.
  rewrite processHtmlContent_links. split; [|split].
  - intros u. apply discovered_elem_of.
  - apply uniq_NoDup.
  - exact (proj1 (Visit_sameDomain maxDepth) _ _ _ _ _
             (archivePage_Visit url archiveDir maxDepth currentDepth w)).
Qed.

Lemma eachFrom_assets_docs c doc arr base dir els i w :
  docs (eachFrom i els (assetCallback c doc arr base dir) w) = docs w.
Proof.
  apply (eachFrom_keeps docs). intros i' el w'. unfold assetCallback.
  repeat (case_match; simpl; try done).
Qed.

(** The markup the Processor returns is the page as it was parsed: no
    attribute has been rewritten when [$.html()] is taken. *)
Lemma processedHtml_loaded loaded baseUrl archiveDir w :
  processedHtml (processLoaded loaded baseUrl archiveDir w).1 = renderHtml loaded.
Proof.
  unfold processLoaded, each. simpl.
  rewrite !eachFrom_assets_docs. simpl.
  rewrite lookup_app_r by apply Nat.le_refl. by rewrite Nat.sub_diag.
Qed.

Lemma processedHtml_unchanged html baseUrl archiveDir w :
  processedHtml (processHtmlContent html baseUrl archiveDir w).1
  = renderHtml (parseHtml html).
Proof. apply processedHtml_loaded. Qed.

Lemma assetCallback_started c doc arr base dir i el w :
  exists started,
    inflight (assetCallback c doc arr base dir i el w) = inflight w ++ started /\
    downloads (assetCallback c doc arr base dir i el w)
    = downloads w ++ (t_url <$> started).
Proof.
  unfold assetCallback.
  repeat (case_match; try (exists []; by rewrite !app_nil_r)).
  by eexists [_].
Qed.

Lemma eachFrom_started c doc arr base dir els i w :
  exists started,
    inflight (eachFrom i els (assetCallback c doc arr base dir) w)
    = inflight w ++ started /\
    downloads (eachFrom i els (assetCallback c doc arr base dir) w)
    = downloads w ++ (t_url <$> started).
Proof.
  revert i w. induction els as [|el els IH]; intros i w; simpl.
  - exists []. by rewrite !app_nil_r.
  - destruct (assetCallback_started c doc arr base dir i el w) as (s1 & Hi1 & Hd1).
    destruct (IH (S i) (assetCallback c doc arr base dir i el w)) as (s2 & Hi2 & Hd2).
    exists (s1 ++ s2). by rewrite Hi2, Hd2, Hi1, Hd1, fmap_app, <- !app_assoc.
Qed.

(** Every download the Processor starts is still in flight when it
    returns: its callback is suspended, not awaited. *)
Lemma processHtmlContent_started html baseUrl archiveDir w :
  exists started,
    inflight (processHtmlContent html baseUrl archiveDir w).2 = inflight w ++ started /\
    downloads (processHtmlContent html baseUrl archiveDir w).2
    = downloads w ++ (t_url <$> started).
Proof.
  unfold processHtmlContent, processLoaded, each. simpl.
  set (w0 := setArrays _ _).
  destruct (eachFrom_started css (length (docs w)) (length (arrays w)) baseUrl archiveDir
              (parseHtml html) 0 w0) as (s1 & Hi1 & Hd1).
  set (w1 := eachFrom 0 _ (assetCallback css _ _ _ _) w0) in *.
  destruct (eachFrom_started js (length (docs w)) (length (arrays w)) baseUrl archiveDir
              (parseHtml html) 0 w1) as (s2 & Hi2 & Hd2).
  set (w2 := eachFrom 0 _ (assetCallback js _ _ _ _) w1) in *.
  destruct (eachFrom_started image (length (docs w)) (length (arrays w)) baseUrl archiveDir
              (parseHtml html) 0 w2) as (s3 & Hi3 & Hd3).
  exists (s1 ++ s2 ++ s3).
  rewrite Hi3, Hd3, Hi2, Hd2, Hi1, Hd1, !fmap_app, <- !app_assoc. done.
Qed.

(** A callback resumed after a download that failed does nothing: no
    record is pushed for it. *)
Lemma settle_failed t w :
  httpGet (t_issued t) (t_url t) = None -> settle t w = w.
Proof. intros Hget. unfold settle, downloadResource. by rewrite Hget. Qed.

End Processor.

(** C8 — Every local file name is made of letters, digits, dot, hyphen
    and underscore.  The names [downloadResource] and [archivePage] derive
    from a path are safe; sanitising keeps a character of the class and
    puts an underscore for any other; the root path gives [index.html];
    the file name of every PageRecord of a crawl is safe, and so is the
    last segment of the local path of every download. *)
Theorem filenames_safe `{Platform} pathname url dir rp issued md cd w :
  safeName (assetFilename pathname) /\
  safeName (pageFilename pathname) /\
  Str.chars (sanitizeFilename pathname)
  = (fun c => if inClass c then c else "_"%char) <$> Str.chars pathname /\
  assetFilename "/" = "index.html" /\
  pageFilename "/" = "index.html" /\
  Forall (fun p => safeName (p_filename p)) (pages (archivePage url dir md cd w).1) /\
  match (downloadResource url dir rp issued w).1 with
  | Some d => exists name, localPath d = pathJoin rp name /\ safeName name
  | None => True
  end.
Proof.
  split; [apply sanitizeFilename_safe|]. split; [apply sanitizeFilename_safe|].
  split; [apply chars_map|]. split; [done|]. split; [done|]. split.
  - exact (proj1 (Visit_filenames md) _ _ _ _ _ (archivePage_Visit url dir md cd w)).
  - unfold downloadResource.
    destruct (httpGet issued url); [|exact I].
    destruct (urlPathname url) as [p|]; [|exact I].
    destruct (diskOk _ _); [|exact I]. cbv zeta.
    destruct (diskOk _ _); [|exact I]. simpl.
    eexists. split; [reflexivity | apply sanitizeFilename_safe].
Qed.

(** ** What the engine puts into the asset arrays *)

Section Records.
Context `{Platform}.
Variable good : AssetRecord -> Prop.
Hypothesis good_failed : forall c u, good (mkAsset c u failed None).
Hypothesis good_downloaded : forall c u, good (mkAsset c u downloaded None).

Lemma readArray_good a w : recordsSatisfy good w -> Forall good (readArray a w).
Proof.
  intros Hw. unfold readArray. destruct (arrays w !! a) as [l|] eqn:E; simpl.
  - exact (Forall_lookup_1 _ _ _ _ Hw E).
  - constructor.
Qed.

Lemma newArray_good l w :
  Forall good l -> recordsSatisfy good w -> recordsSatisfy good (newArray l w).2.
Proof.
  intros Hl Hw. unfold recordsSatisfy, newArray. simpl.
  apply Forall_app. split; [exact Hw | by apply Forall_singleton].
Qed.

Lemma push_good arr r w :
  good r -> recordsSatisfy good w -> recordsSatisfy good (push arr r w).
Proof.
  intros Hr Hw. unfold recordsSatisfy, push. simpl.
  apply Forall_alter; [exact Hw|]. intros l _ Hl.
  apply Forall_app. split; [exact Hl | by apply Forall_singleton].
Qed.

Lemma settle_good t w : recordsSatisfy good w -> recordsSatisfy good (settle t w).
Proof.
  intros Hw. unfold settle.
  pose proof (downloadResource_arrays (t_url t) (t_dir t) (resourcePath (t_cat t))
                (t_issued t) w) as Ha.
  destruct (downloadResource _ _ _ _ w) as [[r|] w1]; simpl in Ha.
  - apply push_good; [apply good_downloaded|].
    unfold recordsSatisfy, setAttr. simpl. by rewrite Ha.
  - unfold recordsSatisfy. by rewrite Ha.
Qed.

Lemma tick_good w : recordsSatisfy good w -> recordsSatisfy good (tick w).
Proof.
  intros Hw. unfold tick.
  assert (recordsSatisfy good
            (setInflight (List.filter (fun t => negb (resolved (S (clock w)) t)) (inflight w))
                         (setClock (S (clock w)) w))) as Hstart by exact Hw.
  revert Hstart. generalize (setInflight
    (List.filter (fun t => negb (resolved (S (clock w)) t)) (inflight w))
    (setClock (S (clock w)) w)).
  induction (List.filter (resolved (S (clock w))) (inflight w)) as [|t ts IH];
    intros w0 Hw0; simpl; [done|].
  apply IH. by apply settle_good.
Qed.

Lemma assetCallback_good c doc arr base dir i el w :
  recordsSatisfy good w -> recordsSatisfy good (assetCallback c doc arr base dir i el w).
Proof.
  intros Hw. unfold assetCallback.
  repeat (case_match; try done). by apply push_good.
Qed.

Lemma eachFrom_good c doc arr base dir els i w :
  recordsSatisfy good w ->
  recordsSatisfy good (eachFrom i els (assetCallback c doc arr base dir) w).
Proof.
  revert i w. induction els as [|el els IH]; intros i w Hw; simpl; [done|].
  by apply IH, assetCallback_good.
Qed.

Lemma processLoaded_good loaded base dir w :
  recordsSatisfy good w -> recordsSatisfy good (processLoaded loaded base dir w).2.
Proof.
  intros Hw. unfold processLoaded, each. simpl.
  do 3 apply eachFrom_good.
  apply (newArray_good [] (setDocs (docs w ++ [loaded]) w)); [constructor|exact Hw].
Qed.

Lemma processHtmlContent_good html base dir w :
  recordsSatisfy good w -> recordsSatisfy good (processHtmlContent html base dir w).2.
Proof. apply processLoaded_good. Qed.

Lemma emptyResult_good w : recordsSatisfy good w -> recordsSatisfy good (emptyResult w).2.
Proof. intros Hw. by apply (newArray_good [] w). Qed.

Lemma mkdir_good dir w : recordsSatisfy good w -> recordsSatisfy good (mkdir dir w).2.
Proof. intros Hw. unfold mkdir. case_match; simpl; by apply tick_good. Qed.

Lemma writeFile_good p c w : recordsSatisfy good w -> recordsSatisfy good (writeFile p c w).2.
Proof. intros Hw. unfold writeFile. case_match; simpl; by apply tick_good. Qed.

Lemma followLink_good recur acc link :
  (forall l w, recordsSatisfy good w -> recordsSatisfy good (recur l w).2) ->
  recordsSatisfy good acc.2 -> recordsSatisfy good (followLink recur acc link).2.
Proof.
  intros Hrec. destruct acc as [[ps a] w]. simpl. intros Hw. unfold followLink.
  specialize (Hrec link w Hw). destruct (recur link w) as [r w1]. simpl in *.
  apply tick_good in Hrec.
  apply newArray_good; [|exact Hrec].
  apply Forall_app. split; by apply readArray_good.
Qed.

Lemma foldl_followLink_good recur ls acc :
  (forall l w, recordsSatisfy good w -> recordsSatisfy good (recur l w).2) ->
  recordsSatisfy good acc.2 ->
  recordsSatisfy good (foldl (followLink recur) acc ls).2.
Proof.
  intros Hrec. revert acc. induction ls as [|l ls IH]; intros acc Hacc; simpl; [done|].
  by apply IH, followLink_good.
Qed.

Lemma archiveBody_good recur url dir md cd w :
  (forall l w, recordsSatisfy good w -> recordsSatisfy good (recur l w).2) ->
  recordsSatisfy good w -> recordsSatisfy good (archiveBody recur url dir md cd w).2.
Proof.
  intros Hrec Hw. unfold archiveBody.
  destruct (_ || _); [by apply emptyResult_good|]. cbv zeta.
  set (wm := tick _).
  assert (recordsSatisfy good wm) as Hm by (by apply tick_good).
  clearbody wm.
  destruct (httpGet _ url) as [response|]; [|by apply emptyResult_good].
  destruct (load (responseData (data response))) as [loaded|];
    [|by apply emptyResult_good, tick_good].
  pose proof (processLoaded_good loaded url dir wm Hm) as Hp.
  destruct (processLoaded loaded url dir wm) as [out w1]. simpl in Hp.
  apply tick_good in Hp.
  destruct (urlPathname url) as [pathname|]; [|by apply emptyResult_good].
  set (htmlPath := pathJoin _ (pageFilename pathname)).
  pose proof (mkdir_good (dirname htmlPath) (tick w1) Hp) as Hmk.
  destruct (mkdir (dirname htmlPath) (tick w1)) as [made w2]. simpl in Hmk.
  destruct made; cbn [negb]; [|by apply emptyResult_good].
  pose proof (writeFile_good htmlPath (Payload (processedHtml out)) w2 Hmk) as Hwr.
  destruct (writeFile htmlPath (Payload (processedHtml out)) w2) as [written w3].
  simpl in Hwr.
  destruct written; cbn [negb]; [|by apply emptyResult_good].
  destruct (lengthOf (responseData (data response))) as [size|];
    [|by apply emptyResult_good].
  destruct (cd <? md); [|exact Hwr].
  set (page := mkPage url _ _ _).
  pose proof (foldl_followLink_good recur (take 10 (links out))
                ([page], pr_assets out, w3) Hrec Hwr) as Hloop.
  by destruct (foldl _ _ _) as [[ps a] w4].
Qed.

Lemma crawl_good rem url dir md cd w :
  recordsSatisfy good w -> recordsSatisfy good (crawl rem url dir md cd w).2.
Proof.
  revert url cd w. induction rem as [|rem IH]; intros url cd w Hw; simpl;
    apply archiveBody_good; try done.
  - intros l w0 Hw0. by apply emptyResult_good.
  - intros l w0 Hw0. by apply IH.
Qed.

Lemma archiveSite_good url dir w :
  recordsSatisfy good w -> recordsSatisfy good (archiveSite url dir w).2.
Proof. intros Hw. unfold archiveSite, archivePage. by apply crawl_good. Qed.

End Records.

(** ** The Archive Store *)

Section Store.
Context `{Platform}.

Lemma tick_archives w : archives (tick w) = archives w.
Proof. exact (f_equal kept (tick_trace w)). Qed.

Lemma tick_idle w :
  inflight w = [] -> dirs (tick w) = dirs w /\ files (tick w) = files w.
Proof. intros Hin. unfold tick. by rewrite Hin. Qed.

Lemma push_prefix arr r a w : readArray a w `prefix_of` readArray a (push arr r w).
Proof.
  unfold readArray, push. simpl. rewrite list_lookup_alter.
  case_decide as E; [subst a|done].
  destruct (arrays w !! arr) as [l|]; simpl; [by apply prefix_app_r | apply prefix_nil].
Qed.

Lemma settle_prefix t a w : readArray a w `prefix_of` readArray a (settle t w).
Proof.
  unfold settle.
  pose proof (downloadResource_arrays (t_url t) (t_dir t) (resourcePath (t_cat t))
                (t_issued t) w) as Ha.
  destruct (downloadResource _ _ _ _ w) as [[r|] w1]; simpl in Ha.
  - etrans; [|apply push_prefix]. unfold readArray, setAttr. simpl. by rewrite Ha.
  - unfold readArray. by rewrite Ha.
Qed.

Lemma settle_all_prefix ts a w :
  readArray a w `prefix_of` readArray a (foldl (fun w t => settle t w) w ts).
Proof.
  revert w. induction ts as [|t ts IH]; intros w; simpl; [done|].
  etrans; [apply (settle_prefix t)|apply IH].
Qed.

(** What the event loop does to an array is to push to it. *)
Lemma tick_prefix a w : readArray a w `prefix_of` readArray a (tick w).
Proof. unfold tick. etrans; [|apply settle_all_prefix]. done. Qed.

Lemma writeFile_prefix p c a w :
  readArray a w `prefix_of` readArray a (writeFile p c w).2.
Proof.
  unfold writeFile. case_match; simpl; (etrans; [|apply tick_prefix]); done.
Qed.

Lemma foldl_sum {A} (g : A -> N) (l : list A) (acc : N) :
  foldl (fun sum x => (sum + g x)%N) acc l
  = (acc + foldl (fun sum x => (sum + g x)%N) 0%N l)%N.
Proof.
  revert acc. induction l as [|x l IH]; intros acc; simpl.
  - by rewrite N.add_0_r.
  - rewrite N.add_0_l, (IH (acc + g x)%N), (IH (g x)). by rewrite N.add_assoc.
Qed.

Lemma assetsSize_cons r l :
  assetsSize (r :: l) = (default 0 (a_size r) + assetsSize l)%N.
Proof. unfold assetsSize. simpl. apply (foldl_sum (fun a => default 0%N (a_size a))). Qed.

(** Failed records, which carry no size, add nothing to the sum. *)
Lemma assetsSize_downloaded l :
  Forall (fun r => a_status r = failed -> a_size r = None) l ->
  assetsSize l = assetsSize (filter (fun r => a_status r = downloaded) l).
Proof.
  induction 1 as [|r l Hr _ IH]; [done|].
  rewrite filter_cons. case_decide as Hs.
  - by rewrite !assetsSize_cons, IH.
  - rewrite assetsSize_cons, IH. destruct (a_status r); [done|].
    by rewrite Hr.
Qed.

(** Records without a size add nothing at all. *)
Lemma assetsSize_unsized l :
  Forall (fun r => a_size r = None) l -> assetsSize l = 0%N.
Proof.
  induction 1 as [|r l Hr _ IH]; [done|]. by rewrite assetsSize_cons, IH, Hr.
Qed.

Lemma pagesSize_from acc sizes ps :
  p_size <$> ps = Num <$> sizes ->
  foldl (fun sum page => plus sum (p_size page)) (Num acc) ps
  = Num (foldl N.add acc sizes).
Proof.
  revert acc sizes. induction ps as [|p ps IH]; intros acc [|n sizes]; try done.
  simpl. intros [= Hp Hps]. rewrite Hp. simpl. by apply IH.
Qed.

(** Page sizes that are all numbers add up to their sum. *)
Lemma pagesSize_counts sizes ps :
  p_size <$> ps = Num <$> sizes -> pagesSize ps = Num (sumOf sizes).
Proof. apply pagesSize_from. Qed.

Lemma pagesSize_NaN ps :
  Forall (fun p => p_size p = Undefined \/ exists n, p_size p = Num n) ps ->
  foldl (fun sum page => plus sum (p_size page)) NaN ps = NaN.
Proof.
  induction 1 as [|p ps [Hp|[n Hp]] _ IH]; [done|..]; simpl; by rewrite Hp.
Qed.

(** One [undefined] among sizes that are numbers otherwise makes the sum
    [NaN]. *)
Lemma pagesSize_undefined ps :
  Forall (fun p => p_size p = Undefined \/ exists n, p_size p = Num n) ps ->
  Exists (fun p => p_size p = Undefined) ps ->
  pagesSize ps = NaN.
Proof.
  unfold pagesSize. generalize 0%N. intros acc Hall Hex. revert acc.
  induction Hall as [|p ps Hp Hall IH]; intros acc; [by apply Exists_nil in Hex|].
  simpl. apply Exists_cons in Hex as [Hu|Hex].
  - rewrite Hu. simpl. by apply pagesSize_NaN.
  - destruct Hp as [Hp|[n Hp]]; rewrite Hp; simpl.
    + by apply pagesSize_NaN.
    + by apply IH.
Qed.

(** What [createArchive] has done when it replies with an archive: the
    total is taken in the world [totalled], and the handler leaves the
    archive at the head of the index. *)
Lemma createArchive_Created url archiveId w archive w' :
  createArchive url archiveId w = (Created archive, w') ->
  (forall good,
     (forall c u, good (mkAsset c u failed None)) ->
     (forall c u, good (mkAsset c u downloaded None)) ->
     recordsSatisfy good w -> recordsSatisfy good (totalled url archiveId w)) /\
  readArray (ar_assets archive) (totalled url archiveId w)
    `prefix_of` readArray (ar_assets archive) w' /\
  ar_totalSize archive
  = formatSize (plus (pagesSize (ar_pages archive))
                     (Num (assetsSize (readArray (ar_assets archive)
                                                 (totalled url archiveId w))))) /\
  ar_assetsArchived archive
  = length (readArray (ar_assets archive) (totalled url archiveId w)) /\
  ar_status archive = "completed" /\
  ar_id archive = archiveId /\
  archives w' = archive :: archives w.
Proof.
  unfold createArchive, totalled. case_match; [done|].
  destruct (mkdir _ w) as [made w1] eqn:Emk. destruct made; cbn [negb snd]; [|done].
  destruct (archiveSite url _ w1) as [result w2] eqn:Esite. cbn [snd].
  set (w3 := tick w2).
  destruct (writeFile _ _ w3) as [written w4] eqn:Ewr.
  destruct written; cbn [negb]; [|done].
  intros [= <- <-]. simpl.
  assert (w1 = (mkdir (getArchiveDir archiveId) w).2) as Hw1 by (by rewrite Emk).
  assert (w2 = (archiveSite url (getArchiveDir archiveId) w1).2) as Hw2
    by (by rewrite Esite).
  assert (w4 = (writeFile (pathJoin (getArchiveDir archiveId) "metadata.json")
                  (Metadata archiveId (pages result) (readArray (assets result) w3))
                  w3).2) as Hw4 by (by rewrite Ewr).
  split; [|split; [|split; [done|split; [done|split; [done|split; [done|]]]]]].
  - intros good Hf Hd Hw. apply tick_good; [done|]. rewrite Hw2.
    apply archiveSite_good; [done..|]. rewrite Hw1. by apply mkdir_good.
  - rewrite Hw4. apply writeFile_prefix.
  - f_equal. change (archives w4) with (kept (trace w4)).
    rewrite Hw4, writeFile_trace. unfold w3. rewrite tick_trace, Hw2.
    unfold archiveSite.
    rewrite (proj1 (Visit_kept 2) _ _ _ _ _
               (archivePage_Visit url (getArchiveDir archiveId) 2 0 (setVisited ∅ w1))).
    simpl. rewrite Hw1. exact (f_equal kept (mkdir_trace _ w)).
Qed.

(** C7, as amended — The total a completed archive stores is the text
    [Math.round(totalSize / 1024) + 'KB'] of the sum of the sizes of its
    PageRecords and of the sizes carried by the records of downloaded
    assets (a record that carries none counts 0; failed assets add
    nothing), over the records its asset array holds at the moment the
    total is taken, which are the first ones of those it holds when the
    handler replies and the ones [assetsArchived] counts.  When the sizes
    of the PageRecords are all non-negative integers, the total is a
    natural number [b] and the text is that of [b / 1024] rounded to the
    nearest integer followed by [KB]; when one of them is [undefined], the
    others being such integers, the text is [NaNKB].  The status of the
    archive is [completed] and the index holds it. *)
Theorem stored_total_size url archiveId w archive w' :
  recordsSatisfy (fun r => a_status r = failed -> a_size r = None) w ->
  createArchive url archiveId w = (Created archive, w') ->
  let counted := readArray (ar_assets archive) (totalled url archiveId w) in
  let assetBytes := assetsSize (filter (fun r => a_status r = downloaded) counted) in
  counted `prefix_of` readArray (ar_assets archive) w' /\
  ar_assetsArchived archive = length counted /\
  ar_totalSize archive
  = formatSize (plus (pagesSize (ar_pages archive)) (Num assetBytes)) /\
  (forall sizes,
     p_size <$> ar_pages archive = Num <$> sizes ->
     ar_totalSize archive
     = pretty ((sumOf sizes + assetBytes + 512) / 1024)%N +:+ "KB") /\
  (Forall (fun p => p_size p = Undefined \/ exists n, p_size p = Num n)
          (ar_pages archive) ->
   Exists (fun p => p_size p = Undefined) (ar_pages archive) ->
   ar_totalSize archive = "NaNKB") /\
  ar_status archive = "completed" /\
  getArchive archiveId w' = Some archive.
Proof.
  intros Hw Hcreated counted assetBytes.
  destruct (createArchive_Created _ _ _ _ _ Hcreated)
    as (Hgood & Hpre & Htotal & Hcount & Hstatus & Hid & Hindex).
  assert (assetsSize counted = assetBytes) as Hbytes.
  { apply assetsSize_downloaded, readArray_good. apply Hgood; [done|done|exact Hw]. }
  fold counted in Htotal, Hpre, Hcount. rewrite Hbytes in Htotal.
  split; [exact Hpre|]. split; [exact Hcount|]. split; [exact Htotal|].
  split; [|split; [|split; [exact Hstatus|]]].
  - intros sizes Hsizes. by rewrite Htotal, (pagesSize_counts sizes).
  - intros Hall Hex. by rewrite Htotal, pagesSize_undefined.
  - unfold getArchive. rewrite Hindex. simpl. by rewrite bool_decide_eq_true_2.
Qed.

(** No asset record the engine builds carries a size: on a server whose
    arrays hold only such records, the stored total counts the pages
    alone. *)
Lemma stored_total_counts_pages url archiveId w archive w' :
  recordsSatisfy (fun r => a_size r = None) w ->
  createArchive url archiveId w = (Created archive, w') ->
  ar_totalSize archive = formatSize (plus (pagesSize (ar_pages archive)) (Num 0)).
Proof.
  intros Hw Hcreated.
  destruct (createArchive_Created _ _ _ _ _ Hcreated) as (Hgood & _ & Htotal & _).
  rewrite Htotal, assetsSize_unsized; [done|].
  apply readArray_good, Hgood; [done|done|exact Hw].
Qed.

Lemma deleteArchive_removal_fails id i w :
  findIndex id (archives w) = Some i ->
  rmdirRecursive (getArchiveDir id) w = None ->
  deleteArchive id w = (ServerError, tick w).
Proof. intros Hi Hrm. unfold deleteArchive. by rewrite Hi, Hrm. Qed.

Lemma rmdirRecursive_absent dir w : dir ∉ dirs w -> rmdirRecursive dir w = None.
Proof. intros Hn. unfold rmdirRecursive. by rewrite (bool_decide_eq_false_2 _ Hn). Qed.

(** C10 — If removing the directory of an existing archive throws, the
    delete handler replies with a server error and the in-memory index is
    left as it was: the record is still there. *)
Theorem failed_removal_keeps_record id i w :
  findIndex id (archives w) = Some i ->
  rmdirRecursive (getArchiveDir id) w = None ->
  (deleteArchive id w).1 = ServerError /\
  archives (deleteArchive id w).2 = archives w /\
  getArchive id (deleteArchive id w).2 = getArchive id w.
Proof.
  intros Hi Hrm. rewrite (deleteArchive_removal_fails id i w Hi Hrm). simpl.
  unfold getArchive. by rewrite tick_archives.
Qed.

(** C9, as amended — Deleting an identifier that is not in the index
    replies NotFound and changes nothing.  Deleting an archive whose
    directory exists and can be removed replies with success and takes the
    first record with that identifier out of the index; when no download
    is still in flight, neither the directory nor anything below it is left
    on disk.  When the directory is already absent the removal throws: the
    reply is a server error and the index keeps the record. *)
Theorem deleteArchive_outcomes id i w :
  (findIndex id (archives w) = None -> deleteArchive id w = (NotFound, w)) /\
  (findIndex id (archives w) = Some i ->
   getArchiveDir id ∈ dirs w -> diskOk (clock w) (getArchiveDir id) = true ->
   (deleteArchive id w).1 = Deleted /\
   archives (deleteArchive id w).2 = delete i (archives w) /\
   (exists a, archives w !! i = Some a /\ ar_id a = id /\
              Forall (fun b => ar_id b <> id) (take i (archives w))) /\
   (inflight w = [] ->
    forall p, below (getArchiveDir id) p = true ->
      (p ∉ dirs (deleteArchive id w).2) /\ files (deleteArchive id w).2 !! p = None)) /\
  (findIndex id (archives w) = Some i ->
   getArchiveDir id ∉ dirs w ->
   (deleteArchive id w).1 = ServerError /\
   archives (deleteArchive id w).2 = archives w).
Proof.
  split; [|split].
  - intros Hi. unfold deleteArchive. by rewrite Hi.
  - intros Hi Hdir Hok. unfold deleteArchive, rmdirRecursive.
    rewrite Hi, (bool_decide_eq_true_2 _ Hdir), Hok. simpl.
    rewrite tick_archives. simpl. split; [done|]. split; [done|]. split.
    + unfold findIndex in Hi. destruct (list_find _ _) as [[j a]|] eqn:Ef; [|done].
      simpl in Hi. injection Hi as ->.
      apply list_find_Some in Ef as (Hl & Ha & Hbefore). exists a.
      split; [done|]. split; [done|].
      apply Forall_lookup_2. intros j b Hb.
      apply lookup_take_Some in Hb as [Hb Hlt]. by eapply Hbefore.
    + intros Hidle p Hp.
      match goal with |- (_ ∉ dirs (tick ?w1)) /\ _ =>
        destruct (tick_idle w1) as [-> ->]; [exact Hidle|] end.
      simpl. split.
      * rewrite elem_of_filter. intros [Hb _]. congruence.
      * apply map_lookup_filter_None_2. right. intros x _. simpl. congruence.
  - intros Hi Hdir.
    rewrite (deleteArchive_removal_fails id i w Hi (rmdirRecursive_absent _ _ Hdir)).
    simpl. split; [done | apply tick_archives].
Qed.

End Store.

(** * Further properties *)

(** ** Names and paths *)

Lemma chars_app s1 s2 : Str.chars (s1 +:+ s2) = Str.chars s1 ++ Str.chars s2.
Proof. induction s1 as [|c r IH]; simpl; [done | by rewrite IH]. Qed.

Lemma chars_inj s1 s2 : Str.chars s1 = Str.chars s2 -> s1 = s2.
Proof.
  revert s2. induction s1 as [|c r IH]; intros [|c2 r2]; simpl; try done.
  intros [= -> Hr]. f_equal. by apply IH.
Qed.

Lemma append_inv_tail s1 s2 t : s1 +:+ t = s2 +:+ t -> s1 = s2.
Proof.
  intros E. apply chars_inj. apply (f_equal Str.chars) in E.
  rewrite !chars_app in E. by apply app_inv_tail in E.
Qed.

Lemma length_chars s : length (Str.chars s) = String.length s.
Proof. induction s as [|c r IH]; simpl; [done | by rewrite IH]. Qed.

Lemma sanitizeChar_fixed c : safeChar c = true -> sanitizeChar c = c.
Proof.
  unfold safeChar, sanitizeChar. destruct (inClass c); [done|]. simpl.
  intros Hc. by apply Ascii.eqb_eq in Hc as ->.
Qed.

(** X1 — Sanitising a name keeps its length, changes nothing when done
    again, and leaves a name as it is exactly when the name is safe: each
    of its characters is of the class [[a-zA-Z0-9.-]] or is the underscore
    that sanitising puts for the others. *)
Theorem sanitizeFilename_idempotent s :
  sanitizeFilename (sanitizeFilename s) = sanitizeFilename s /\
  String.length (sanitizeFilename s) = String.length s /\
  (sanitizeFilename s = s <-> safeName s) /\
  (sanitizeFilename s = s <->
   Forall (fun c => inClass c = true \/ c = "_"%char) (Str.chars s)).
Proof.
  assert (safeName s <-> Forall (fun c => inClass c = true \/ c = "_"%char) (Str.chars s))
    as Hsafe.
  { unfold safeName, safeChar. apply Forall_proper; [|done]. intros c.
    rewrite orb_true_iff. by rewrite Ascii.eqb_eq. }
  rewrite <- Hsafe.
  assert (forall t, safeName t -> sanitizeFilename t = t) as Hfix.
  { intros t Ht. apply chars_inj. unfold sanitizeFilename. rewrite chars_map.
    unfold safeName in Ht. revert Ht. generalize (Str.chars t).
    induction 1 as [|c l Hc _ IH]; [done|].
    rewrite fmap_cons, IH. by rewrite sanitizeChar_fixed. }
  split; [apply Hfix, sanitizeFilename_safe|]. split.
  - rewrite <- !length_chars. unfold sanitizeFilename.
    by rewrite chars_map, length_fmap.
  - assert (sanitizeFilename s = s <-> safeName s) as Hiff
      by (split; [intros <-; apply sanitizeFilename_safe | apply Hfix]).
    by split.
Qed.

Lemma split_nonempty sep s : Str.split sep s <> [].
Proof. destruct s as [|c r]; simpl; [done|]. by repeat case_match. Qed.

Lemma split_noSlash s : noSlash s -> Str.split "/" s = [s].
Proof.
  unfold noSlash. induction s as [|c r IH]; simpl; [done|].
  intros Hn. destruct (Ascii.eqb_spec c "/") as [->|Hc].
  - exfalso. apply Hn. by left.
  - rewrite IH; [done|]. intros Hin. apply Hn. by right.
Qed.

Lemma split_after_slash a s :
  exists b before, Str.split "/" (a +:+ "/" +:+ s) = (b :: before) ++ Str.split "/" s.
Proof.
  induction a as [|c a IH]; simpl.
  - by exists "", [].
  - destruct IH as (b & before & E). rewrite E.
    destruct (Ascii.eqb c "/"); [by exists "", (b :: before)|].
    by exists (String c b), before.
Qed.

Lemma pop_app before l : l <> [] -> Str.pop (before ++ l) = Str.pop l.
Proof.
  intros Hl. unfold Str.pop. induction before as [|b before IH]; [done|].
  simpl. destruct (before ++ l) eqn:E; [|exact IH].
  by apply app_eq_nil in E as [_ ->].
Qed.

Lemma basename_pathJoin a f : noSlash f -> basename (pathJoin a f) = f.
Proof.
  intros Hf. unfold basename, pathJoin.
  destruct (split_after_slash a f) as (b & before & ->).
  rewrite pop_app by apply split_nonempty. by rewrite split_noSlash.
Qed.

Lemma safeName_noSlash s : safeName s -> noSlash s.
Proof.
  unfold safeName, noSlash. intros Hs Hin.
  rewrite Forall_forall in Hs. by apply Hs in Hin.
Qed.

Lemma app_assoc_string a b c : (a +:+ b) +:+ c = a +:+ b +:+ c.
Proof.
  apply chars_inj. by rewrite !chars_app, app_assoc.
Qed.

Lemma length_append a b : String.length (a +:+ b) = String.length a + String.length b.
Proof. by rewrite <- !length_chars, chars_app, length_app. Qed.

Lemma truthy_map f s : Str.truthy (Str.map f s) = Str.truthy s.
Proof. by destruct s. Qed.

(** X2 — The file name of a page depends on the last segment of the
    path alone: for a segment after the last slash, it is the segment
    sanitised, and [page.html] when the path ends with the slash; so
    pages of different directories whose last segments agree get the same
    file name. *)
Theorem pageFilename_last_segment above seg :
  noSlash seg -> Str.truthy (above +:+ seg) = true ->
  pageFilename (above +:+ "/" +:+ seg)
  = sanitizeFilename (if Str.truthy seg then seg else "page.html").
Proof.
  intros Hseg Hne. unfold pageFilename.
  assert (String.eqb (above +:+ "/" +:+ seg) "/" = false) as ->.
  { apply String.eqb_neq. intros E. apply (f_equal String.length) in E.
    rewrite !length_append in E. simpl in E.
    destruct above, seg; simpl in *; try done; lia. }
  cbv zeta. destruct (split_after_slash above seg) as (b & before & ->).
  rewrite pop_app by apply split_nonempty. rewrite split_noSlash by done.
  done.
Qed.

(** X3 — The file name of a page is never empty, whatever the path. *)
Theorem pageFilename_never_empty pathname :
  Str.truthy (pageFilename pathname) = true /\
  0 < String.length (pageFilename pathname).
Proof.
  assert (Str.truthy (pageFilename pathname) = true) as Ht.
  { unfold pageFilename, sanitizeFilename. rewrite truthy_map.
    destruct (String.eqb pathname "/"); [done|]. cbv zeta.
    by destruct (Str.truthy (Str.pop (Str.split "/" pathname))) eqn:E. }
  split; [exact Ht|]. destruct (pageFilename pathname); simpl in *; [done|lia].
Qed.

Section Domains.
Context `{Platform}.

(** X4 — [isSameDomain] is an equivalence on the URLs that parse and
    is false as soon as one does not: a URL is on its own domain exactly
    when it is valid, the test is symmetric and transitive, and it only
    holds between valid URLs. *)
Theorem isSameDomain_equivalence u v t :
  isSameDomain u u = isValidUrl u /\
  isSameDomain u v = isSameDomain v u /\
  (isSameDomain u v = true -> isSameDomain v t = true -> isSameDomain u t = true) /\
  (isSameDomain u v = true -> isValidUrl u = true /\ isValidUrl v = true).
Proof.
  split; [|split; [|split]].
  - unfold isSameDomain, isValidUrl. destruct (urlHostname u); [|done].
    by rewrite bool_decide_eq_true_2.
  - unfold isSameDomain. destruct (urlHostname u), (urlHostname v); try done.
    apply bool_decide_ext. naive_solver.
  - apply isSameDomain_trans.
  - unfold isSameDomain, isValidUrl.
    by destruct (urlHostname u), (urlHostname v).
Qed.

(** X5 — A download that succeeds has stored the payload byte for byte:
    the local path it returns is the category directory joined with the
    sanitised path of the URL, the file at that path under the archive
    directory holds the payload of the response, and the size returned is
    the length of that payload. *)
Theorem downloadResource_stores url dir rp issued w d :
  (downloadResource url dir rp issued w).1 = Some d ->
  exists response pathname,
    httpGet issued url = Some response /\
    urlPathname url = Some pathname /\
    localPath d = pathJoin rp (assetFilename pathname) /\
    dl_size d = N.of_nat (String.length (data response)) /\
    dl_contentType d = contentType response /\
    files (downloadResource url dir rp issued w).2 !! pathJoin dir (localPath d)
    = Some (Payload (data response)).
Proof.
  unfold downloadResource.
  destruct (httpGet issued url) as [response|]; [|done].
  destruct (urlPathname url) as [pathname|]; [|done].
  destruct (diskOk _ _); [|done]. cbv zeta.
  destruct (diskOk _ _); [|done]. simpl. intros [= <-]. simpl.
  exists response, pathname. repeat split; try done.
  unfold pathJoin. rewrite <- !app_assoc_string.
  rewrite !app_assoc_string. apply lookup_insert_eq.
Qed.

(** X6 — A download that fails writes no file: the world it leaves is
    the one it found, but for the category directory it may have made. *)
Theorem downloadResource_failure_writes_nothing url dir rp issued w :
  (downloadResource url dir rp issued w).1 = None ->
  files (downloadResource url dir rp issued w).2 = files w /\
  ((downloadResource url dir rp issued w).2 = w \/
   exists made, (downloadResource url dir rp issued w).2 = makeDirs made w).
Proof.
  unfold downloadResource.
  destruct (httpGet issued url) as [response|]; [|by split; [|left]].
  destruct (urlPathname url) as [pathname|]; [|by split; [|left]].
  destruct (diskOk _ _); [|by split; [|left]]. cbv zeta.
  destruct (diskOk _ _); [done|]. simpl. intros _.
  split; [done|]. right. by eexists.
Qed.

End Domains.

(** ** What the Processor has done when it returns *)

Section ProcessorOutcomes.
Context `{Platform}.

Lemma assetCallback_cases c doc arr base dir i el w :
  assetCallback c doc arr base dir i el w =
  match started c base el with
  | Some u =>
      setInflight (inflight w ++ [mkTask doc i arr c u dir (clock w)])
        (setDownloads (downloads w ++ [u]) w)
  | None =>
      match unresolved c base el with
      | Some r => push arr r w
      | None => w
      end
  end.
Proof.
  unfold assetCallback, started, unresolved.
  repeat (case_match; try done); congruence.
Qed.

Lemma readArray_push arr r w :
  arr < length (arrays w) -> readArray arr (push arr r w) = readArray arr w ++ [r].
Proof.
  intros Hlt. unfold readArray, push. simpl. rewrite list_lookup_alter_eq.
  destruct (lookup_lt_is_Some_2 (arrays w) arr Hlt) as [l ->]. done.
Qed.

(** One pass of [.each(async ...)] over the document. *)
Lemma eachFrom_assets c doc arr base dir els :
  forall i w, arr < length (arrays w) ->
  readArray arr (eachFrom i els (assetCallback c doc arr base dir) w)
  = readArray arr w ++ omap (unresolved c base) els /\
  downloads (eachFrom i els (assetCallback c doc arr base dir) w)
  = downloads w ++ omap (started c base) els /\
  (exists tasks,
     inflight (eachFrom i els (assetCallback c doc arr base dir) w)
     = inflight w ++ tasks /\
     t_url <$> tasks = omap (started c base) els /\
     Forall (fun t => t_arr t = arr /\ t_dir t = dir /\ t_issued t = clock w) tasks) /\
  length (arrays (eachFrom i els (assetCallback c doc arr base dir) w))
  = length (arrays w) /\
  clock (eachFrom i els (assetCallback c doc arr base dir) w) = clock w.
Proof.
  induction els as [|el els IH]; intros i w Hlt; simpl.
  - rewrite !app_nil_r. repeat split; try done. exists []. by rewrite app_nil_r.
  - rewrite assetCallback_cases.
    destruct (started c base el) as [u|] eqn:Es.
    + set (w1 := setInflight _ _).
      destruct (IH (S i) w1 Hlt) as (Ha & Hd & (tasks & Hi & Hu & Hall) & Hlen & Hclock).
      assert (unresolved c base el = None) as ->.
      { unfold started, unresolved in *. repeat case_match; congruence. }
      rewrite Ha, Hd, Hlen, Hclock. simpl. rewrite <- app_assoc.
      repeat split; try done.
      exists (mkTask doc i arr c u dir (clock w) :: tasks). split; [|split].
      * rewrite Hi. unfold w1. simpl. by rewrite <- app_assoc.
      * rewrite fmap_cons, Hu. done.
      * by constructor.
    + destruct (unresolved c base el) as [r|] eqn:Eu.
      * assert (arr < length (arrays (push arr r w))) as Hlt'.
        { unfold push. simpl. by rewrite length_alter. }
        destruct (IH (S i) (push arr r w) Hlt')
          as (Ha & Hd & (tasks & Hi & Hu & Hall) & Hlen & Hclock).
        rewrite Ha, Hd, Hlen, Hclock, readArray_push by done. simpl.
        rewrite <- app_assoc, length_alter. repeat split; try done.
        by exists tasks.
      * apply IH, Hlt.
Qed.

(** X7 — When the Processor returns, its asset array holds the [failed]
    records of the references that do not resolve, and nothing else: those
    of the stylesheets, then of the scripts, then of the images, each
    with the reference as written in the page. *)
Theorem processor_records_at_return html baseUrl archiveDir w :
  readArray (pr_assets (processHtmlContent html baseUrl archiveDir w).1)
            (processHtmlContent html baseUrl archiveDir w).2
  = omap (unresolved css baseUrl) (parseHtml html)
    ++ omap (unresolved js baseUrl) (parseHtml html)
    ++ omap (unresolved image baseUrl) (parseHtml html) /\
  Forall (fun r => a_status r = failed /\ a_size r = None)
         (readArray (pr_assets (processHtmlContent html baseUrl archiveDir w).1)
                    (processHtmlContent html baseUrl archiveDir w).2).
Proof.
  assert (forall c els, Forall (fun r => a_status r = failed /\ a_size r = None)
                          (omap (unresolved c baseUrl) els)) as Hfailed.
  { intros c els. apply Forall_forall. intros r Hr.
    apply list_elem_of_omap in Hr as (el & _ & Hr).
    unfold unresolved in Hr. repeat case_match; naive_solver. }
  unfold processHtmlContent, processLoaded, each. simpl.
  set (arr := length (arrays w)). set (doc := length (docs w)).
  set (w0 := setArrays _ _).
  assert (arr < length (arrays w0)) as H0.
  { unfold w0, arr. simpl. rewrite length_app. simpl. lia. }
  assert (readArray arr w0 = []) as Hempty.
  { unfold readArray, w0, arr. simpl.
    rewrite lookup_app_r by apply Nat.le_refl. by rewrite Nat.sub_diag. }
  destruct (eachFrom_assets css doc arr baseUrl archiveDir (parseHtml html) 0 w0 H0)
    as (Ha1 & _ & _ & Hl1 & _).
  set (w1 := eachFrom 0 _ (assetCallback css _ _ _ _) w0) in *.
  rewrite <- Hl1 in H0.
  destruct (eachFrom_assets js doc arr baseUrl archiveDir (parseHtml html) 0 w1 H0)
    as (Ha2 & _ & _ & Hl2 & _).
  set (w2 := eachFrom 0 _ (assetCallback js _ _ _ _) w1) in *.
  rewrite <- Hl2 in H0.
  destruct (eachFrom_assets image doc arr baseUrl archiveDir (parseHtml html) 0 w2 H0)
    as (Ha3 & _).
  rewrite Ha3, Ha2, Ha1, Hempty. simpl. rewrite <- app_assoc.
  split; [done|]. rewrite !Forall_app. auto.
Qed.

(** X8 — The downloads the Processor starts are those of the references
    that resolve, stylesheets first, then scripts, then images; when it
    returns, each has its callback in flight, bound to the asset array of
    the result and to the archive directory. *)
Theorem processor_downloads_started html baseUrl archiveDir w :
  exists tasks,
    inflight (processHtmlContent html baseUrl archiveDir w).2 = inflight w ++ tasks /\
    downloads (processHtmlContent html baseUrl archiveDir w).2
    = downloads w ++ (t_url <$> tasks) /\
    t_url <$> tasks
    = omap (started css baseUrl) (parseHtml html)
      ++ omap (started js baseUrl) (parseHtml html)
      ++ omap (started image baseUrl) (parseHtml html) /\
    Forall (fun t =>
              t_arr t = pr_assets (processHtmlContent html baseUrl archiveDir w).1 /\
              t_dir t = archiveDir /\ t_issued t = clock w) tasks.
Proof.
  unfold processHtmlContent, processLoaded, each. simpl.
  set (arr := length (arrays w)). set (doc := length (docs w)).
  set (w0 := setArrays _ _).
  assert (arr < length (arrays w0)) as H0.
  { unfold w0, arr. simpl. rewrite length_app. simpl. lia. }
  destruct (eachFrom_assets css doc arr baseUrl archiveDir (parseHtml html) 0 w0 H0)
    as (_ & Hd1 & (t1 & Hi1 & Hu1 & Hall1) & Hl1 & Hc1).
  set (w1 := eachFrom 0 _ (assetCallback css _ _ _ _) w0) in *.
  rewrite <- Hl1 in H0.
  destruct (eachFrom_assets js doc arr baseUrl archiveDir (parseHtml html) 0 w1 H0)
    as (_ & Hd2 & (t2 & Hi2 & Hu2 & Hall2) & Hl2 & Hc2).
  set (w2 := eachFrom 0 _ (assetCallback js _ _ _ _) w1) in *.
  rewrite <- Hl2 in H0.
  destruct (eachFrom_assets image doc arr baseUrl archiveDir (parseHtml html) 0 w2 H0)
    as (_ & Hd3 & (t3 & Hi3 & Hu3 & Hall3) & _ & _).
  exists (t1 ++ t2 ++ t3).
  rewrite Hi3, Hi2, Hi1, Hd3, Hd2, Hd1, !fmap_app, Hu1, Hu2, Hu3, <- !app_assoc.
  repeat split; try done.
  rewrite Hc2, Hc1 in Hall3. rewrite Hc1 in Hall2.
  rewrite !Forall_app. auto.
Qed.

Lemma List_filter_sublist {A} (f : A -> bool) k : List.filter f k `sublist_of` k.
Proof.
  induction k as [|y k IH]; simpl; [done|].
  destruct (f y); [by apply sublist_skip | by apply sublist_cons].
Qed.

Lemma uniq_sublist l : uniq l `sublist_of` l.
Proof.
  induction l as [|x l IH]; simpl; [done|].
  apply sublist_skip. etrans; [apply List_filter_sublist | exact IH].
Qed.

Lemma filter_absent (x : string) l :
  x ∉ l -> List.filter (fun y => negb (String.eqb x y)) l = l.
Proof.
  induction l as [|y l IH]; simpl; [done|].
  intros [Hxy Hx]%not_elem_of_cons.
  destruct (String.eqb_spec x y) as [->|_]; [done|]. simpl. f_equal. by apply IH.
Qed.

Lemma uniq_NoDup_id l : NoDup l -> uniq l = l.
Proof.
  induction 1 as [|x l Hx _ IH]; simpl; [done|].
  by rewrite IH, filter_absent.
Qed.

(** Before an element of [uniq l] come, in [l], no occurrence of it nor
    of any element that follows it in [uniq l]. *)
Lemma uniq_first_occurrence l u v :
  [u; v] `sublist_of` uniq l ->
  exists before after, l = before ++ u :: after /\ (u ∉ before) /\ (v ∉ before).
Proof.
  induction l as [|x l IH]; simpl; [by intros ?%sublist_nil_r|].
  intros [Hsub|(rest & [= <- <-] & Hsub)]%sublist_cons_r.
  - assert (u ∈ List.filter (fun y => negb (String.eqb x y)) (uniq l)) as Hu.
    { apply (sublist_subseteq _ _ Hsub). set_solver. }
    assert (v ∈ List.filter (fun y => negb (String.eqb x y)) (uniq l)) as Hv.
    { apply (sublist_subseteq _ _ Hsub). set_solver. }
    apply elem_of_List_filter in Hu as [_ Hu]. apply elem_of_List_filter in Hv as [_ Hv].
    destruct IH as (before & after & -> & Hub & Hvb).
    { etrans; [exact Hsub | apply List_filter_sublist]. }
    exists (x :: before), after. split; [done|].
    rewrite !not_elem_of_cons.
    destruct (String.eqb_spec x u), (String.eqb_spec x v); naive_solver.
  - exists [], l. split; [done|]. split; apply not_elem_of_nil.
Qed.

(** X9 — The links the Processor returns are in document order, each
    kept at its first occurrence: the list holds the links the hyperlinks
    contribute, each once, and a link that comes before another in it has
    its first occurrence among the hyperlinks before any occurrence of the
    other.  So the list is a subsequence of the links of the hyperlinks,
    it starts with the link of the first hyperlink that counts, and when
    no link occurs twice it is the list of the hyperlinks as it stands. *)
Theorem processor_links_in_document_order html baseUrl archiveDir w :
  NoDup (links (processHtmlContent html baseUrl archiveDir w).1) /\
  (forall u, u ∈ links (processHtmlContent html baseUrl archiveDir w).1 <->
             u ∈ omap (accepted baseUrl) (parseHtml html)) /\
  (forall u v,
     [u; v] `sublist_of` links (processHtmlContent html baseUrl archiveDir w).1 ->
     exists before after,
       omap (accepted baseUrl) (parseHtml html) = before ++ u :: after /\
       (u ∉ before) /\ (v ∉ before)) /\
  links (processHtmlContent html baseUrl archiveDir w).1
    `sublist_of` omap (accepted baseUrl) (parseHtml html) /\
  head (links (processHtmlContent html baseUrl archiveDir w).1)
  = head (omap (accepted baseUrl) (parseHtml html)) /\
  (NoDup (omap (accepted baseUrl) (parseHtml html)) ->
   links (processHtmlContent html baseUrl archiveDir w).1
   = omap (accepted baseUrl) (parseHtml html)).
Proof.
  rewrite processHtmlContent_links. unfold discovered, linksOf, each.
  rewrite eachFrom_links, app_nil_l.
  split; [apply uniq_NoDup|]. split; [intros u; apply uniq_elem_of|].
  split; [intros u v; apply uniq_first_occurrence|].
  split; [apply uniq_sublist|]. split; [|apply uniq_NoDup_id].
  by destruct (omap _ _).
Qed.

End ProcessorOutcomes.

(** ** What a resumed callback does *)

Section Settled.
Context `{Platform}.

(** X10 — A callback resumed after a download that succeeded, for an
    archive directory [archives/<id>], has stored the payload under the
    category directory of the archive, pushed one [downloaded] record with
    the resolved URL, and set the attribute of its element to that very
    path, taken from the root: the reference names the file stored. *)
Theorem settled_download_is_referenced t w id response pathname doc el :
  t_dir t = getArchiveDir id -> noSlash id ->
  httpGet (t_issued t) (t_url t) = Some response ->
  urlPathname (t_url t) = Some pathname ->
  diskOk (clock w)
    (dirname (pathJoin (pathJoin (t_dir t) (resourcePath (t_cat t)))
                       (assetFilename pathname))) = true ->
  diskOk (clock w)
    (pathJoin (pathJoin (t_dir t) (resourcePath (t_cat t))) (assetFilename pathname))
  = true ->
  docs w !! t_doc t = Some doc -> doc !! t_el t = Some el ->
  t_arr t < length (arrays w) ->
  files (settle t w)
    !! pathJoin (pathJoin (getArchiveDir id) (resourcePath (t_cat t)))
                (assetFilename pathname)
  = Some (Payload (data response)) /\
  (exists doc',
     docs (settle t w) !! t_doc t = Some doc' /\
     doc' !! t_el t
     = Some (mkElement (tag el)
               (Some ("/" +:+ pathJoin (pathJoin (getArchiveDir id)
                                                   (resourcePath (t_cat t)))
                                         (assetFilename pathname))))) /\
  readArray (t_arr t) (settle t w)
  = readArray (t_arr t) w ++ [mkAsset (t_cat t) (t_url t) downloaded None].
Proof.
  intros Hdir Hid Hget Hpath Hok1 Hok2 Hdoc Hel Harr.
  unfold settle, downloadResource. rewrite Hget, Hpath, Hok1. cbv zeta.
  change (clock (makeDirs _ w)) with (clock w). rewrite Hok2.
  cbv beta iota zeta. cbn [localPath].
  rewrite Hdir, !basename_pathJoin
    by (done || apply safeName_noSlash, sanitizeFilename_safe).
  split; [|split].
  - unfold push, setAttr. simpl. apply lookup_insert_eq.
  - unfold push, setAttr, Document in *. simpl.
    eexists. split; [rewrite list_lookup_alter_eq, Hdoc; reflexivity|].
    rewrite list_lookup_alter_eq, Hel. simpl. do 3 f_equal.
    unfold getArchiveDir. rewrite basename_pathJoin by done.
    unfold pathJoin. by rewrite !app_assoc_string.
  - rewrite readArray_push; [done|]. done.
Qed.

End Settled.

(** ** More on a crawl *)

Section CrawlOutcomes.
Context `{Platform}.

Lemma foldl_followLink_pages recur ls ps0 a0 w :
  exists more, (foldl (followLink recur) (ps0, a0, w) ls).1.1 = ps0 ++ more.
Proof.
  revert ps0 a0 w. induction ls as [|l ls IH]; intros ps0 a0 w.
  - exists []. by rewrite app_nil_r.
  - destruct (followLink_spec recur ps0 a0 w l) as (a1 & w2 & E & _).
    change (foldl (followLink recur) (ps0, a0, w) (l :: ls))
      with (foldl (followLink recur) (followLink recur (ps0, a0, w) l) ls).
    rewrite E. destruct (IH (ps0 ++ pages (recur l w).1) a1 w2) as (more & ->).
    exists (pages (recur l w).1 ++ more). by rewrite app_assoc.
Qed.

Lemma lengthOf_Text html size :
  lengthOf (Text html) = Some size -> size = Num (N.of_nat (String.length html)).
Proof. by intros [= <-]. Qed.

Lemma archivePage_head url dir md cd w :
  pages (archivePage url dir md cd w).1 = [] \/
  exists response pathname size stamp rest,
    httpGet (clock w) url = Some response /\
    urlPathname url = Some pathname /\
    lengthOf (responseData (data response)) = Some size /\
    pages (archivePage url dir md cd w).1
    = mkPage url (pageFilename pathname) size stamp :: rest.
Proof.
  destruct (pages (archivePage url dir md cd w).1) as [|page below] eqn:E; [by left|].
  right.
  destruct (archivePage_page url dir md cd w page below E)
    as (response & loaded & pathname & size & stamp & _ & _ & Hget & _ & Hpath & Hlen
        & -> & _).
  by exists response, pathname, size, stamp, below.
Qed.

(** X11 — The crawl is pre-order: when [archivePage] returns any
    PageRecord, the first is that of the page it was called on, with the
    file name derived from its path and, as size, the [length] of the
    [data] of the response to the request made at the moment of the call:
    the number of characters of the body, when axios hands the body over
    as the string it is. *)
Theorem root_page_first url dir md cd w :
  pages (archivePage url dir md cd w).1 = [] \/
  exists response pathname size stamp rest,
    httpGet (clock w) url = Some response /\
    urlPathname url = Some pathname /\
    lengthOf (responseData (data response)) = Some size /\
    (forall html, responseData (data response) = Text html ->
                  size = Num (N.of_nat (String.length html))) /\
    pages (archivePage url dir md cd w).1
    = mkPage url (pageFilename pathname) size stamp :: rest.
Proof.
  destruct (archivePage_head url dir md cd w)
    as [Hnone|(response & pathname & size & stamp & rest & Hget & Hpath & Hlen & Hpages)];
    [by left|right].
  exists response, pathname, size, stamp, rest.
  repeat split; try done. intros html E. rewrite E in Hlen. by apply lengthOf_Text.
Qed.

(** The URLs of the pages of a run are among its requests, in order. *)
Lemma Visit_pages_requested md :
  (forall url cd t ps t', Visit md url cd t ps t' ->
     exists new, asked t' = asked t ++ new /\ (p_url <$> ps) `sublist_of` new) /\
  (forall depth ls t ps t', Follow md depth ls t ps t' ->
     exists new, asked t' = asked t ++ new /\ (p_url <$> ps) `sublist_of` new).
Proof.
  apply Visit_Follow_mutind.
  - intros. exists []. by rewrite app_nil_r.
  - intros url cd t _ _. exists [url]. split; [done|]. apply sublist_nil_l.
  - intros url cd t t' issued response loaded page more _ _ _ _ Hurl _ _ _ (new & Ha & Hs).
    exists (url :: new). split; [by rewrite Ha; simpl; rewrite <- app_assoc|].
    rewrite fmap_cons, Hurl. by apply sublist_skip.
  - intros. exists []. by rewrite app_nil_r.
  - intros depth link rest t t1 t' found more _ (n1 & Ha1 & Hs1) _ (n2 & Ha2 & Hs2).
    exists (n1 ++ n2). split; [by rewrite Ha2, Ha1, <- app_assoc|].
    rewrite fmap_app. by apply sublist_app.
Qed.

(** X12 — No two PageRecords of a crawl share a URL: the URLs of the
    pages are among the requests the crawl adds, in the same order, and
    those are pairwise distinct. *)
Theorem page_urls_distinct url dir md cd w :
  NoDup (p_url <$> pages (archivePage url dir md cd w).1) /\
  exists new,
    requests (archivePage url dir md cd w).2 = requests w ++ new /\
    (p_url <$> pages (archivePage url dir md cd w).1) `sublist_of` new.
Proof.
  pose proof (archivePage_Visit url dir md cd w) as Hv.
  destruct (proj1 (Visit_pages_requested md) _ _ _ _ _ Hv) as (new & Ha & Hs).
  destruct (proj1 (Visit_requests md) _ _ _ _ _ Hv) as (_ & new' & Ha' & Hnd & _).
  simpl in Ha, Ha'. rewrite Ha in Ha'. apply app_inv_head in Ha'. subst new'.
  split; [by eapply sublist_NoDup|]. by exists new.
Qed.

(** The visited set grows by the requests, and each request has its
    console line. *)
Lemma Visit_bookkeeping md :
  (forall url cd t ps t', Visit md url cd t ps t' ->
     exists new lines, asked t' = asked t ++ new /\ said t' = said t ++ lines /\
       seen t' = seen t ∪ list_to_set new /\ lines.*1 = new) /\
  (forall depth ls t ps t', Follow md depth ls t ps t' ->
     exists new lines, asked t' = asked t ++ new /\ said t' = said t ++ lines /\
       seen t' = seen t ∪ list_to_set new /\ lines.*1 = new).
Proof.
  apply Visit_Follow_mutind.
  - intros. exists [], []. rewrite !app_nil_r. repeat split; try done. set_solver.
  - intros url cd t _ _. exists [url], [(url, cd)]. repeat split; try done.
    simpl. set_solver.
  - intros url cd t t' issued response loaded page more _ _ _ _ _ _ _ _
      (new & lines & Ha & Hs & Hv & Hl).
    exists (url :: new), ((url, cd) :: lines). simpl in *.
    rewrite Ha, Hs, Hv, <- !app_assoc. repeat split; try done; [set_solver|].
    f_equal. exact Hl.
  - intros. exists [], []. rewrite !app_nil_r. repeat split; try done. set_solver.
  - intros depth link rest t t1 t' found more _ (n1 & l1 & Ha1 & Hs1 & Hv1 & Hl1)
      _ (n2 & l2 & Ha2 & Hs2 & Hv2 & Hl2).
    exists (n1 ++ n2), (l1 ++ l2).
    rewrite Ha2, Ha1, Hs2, Hs1, Hv2, Hv1, <- !app_assoc, fmap_app, Hl1, Hl2.
    repeat split; try done. rewrite list_to_set_app_L. set_solver.
Qed.

(** X13 — The visited set after an invocation is the visited set before
    it with the URLs it requested, and nothing else; and the console
    carries one line for each request, in the order of the requests. *)
Theorem visited_is_what_was_requested url dir md cd w :
  exists new lines,
    requests (archivePage url dir md cd w).2 = requests w ++ new /\
    console (archivePage url dir md cd w).2 = console w ++ lines /\
    visited (archivePage url dir md cd w).2 = visited w ∪ list_to_set new /\
    lines.*1 = new.
Proof.
  exact (proj1 (Visit_bookkeeping md) _ _ _ _ _ (archivePage_Visit url dir md cd w)).
Qed.

(** X14 — A crawl started by [archivePage(url, archiveDir)] always
    requests its root, and first: the visited set of an earlier run plays
    no part. *)
Theorem crawl_requests_its_root url dir w :
  exists rest, requests (archiveSite url dir w).2 = requests w ++ url :: rest.
Proof.
  unfold archiveSite.
  apply (Visit_asks_first 2 url 0 (trace (setVisited ∅ w)) _ _
           (archivePage_Visit url dir 2 0 (setVisited ∅ w))).
  - simpl. set_solver.
  - lia.
Qed.

End CrawlOutcomes.

(** ** The disk during a crawl *)

Section Disk.
Context `{Platform}.

Lemma diskGrows_refl w : diskGrows w w.
Proof. by split. Qed.

Lemma diskGrows_trans w1 w2 w3 : diskGrows w1 w2 -> diskGrows w2 w3 -> diskGrows w1 w3.
Proof. intros [? ?] [? ?]. split; set_solver. Qed.

Lemma diskGrows_same w w' : files w' = files w -> dirs w' = dirs w -> diskGrows w w'.
Proof. intros Hf Hd. unfold diskGrows. by rewrite Hf, Hd. Qed.

Lemma diskGrows_makeDirs dir w : diskGrows w (makeDirs dir w).
Proof. split; simpl; set_solver. Qed.

Lemma diskGrows_write path c w :
  diskGrows w (setFiles (<[path := c]> (files w)) w).
Proof. split; simpl; [|done]. rewrite dom_insert_L. set_solver. Qed.

Lemma downloadResource_grows url dir rp issued w :
  diskGrows w (downloadResource url dir rp issued w).2.
Proof.
  unfold downloadResource.
  destruct (httpGet issued url); [|apply diskGrows_refl].
  destruct (urlPathname url); [|apply diskGrows_refl].
  destruct (diskOk (clock w) (dirname _)); [|apply diskGrows_refl]. cbv zeta.
  destruct (diskOk _ _); cbn [snd]; [|apply diskGrows_makeDirs].
  eapply diskGrows_trans; [apply diskGrows_makeDirs|]. apply diskGrows_write.
Qed.

Lemma settle_grows t w : diskGrows w (settle t w).
Proof.
  unfold settle.
  pose proof (downloadResource_grows (t_url t) (t_dir t) (resourcePath (t_cat t))
                (t_issued t) w) as Hd.
  by destruct (downloadResource _ _ _ _ w) as [[r|] w1].
Qed.

Lemma settle_all_grows ts w : diskGrows w (foldl (fun w t => settle t w) w ts).
Proof.
  revert w. induction ts as [|t ts IH]; intros w; simpl; [apply diskGrows_refl|].
  eapply diskGrows_trans; [apply settle_grows | apply IH].
Qed.

Lemma tick_grows w : diskGrows w (tick w).
Proof.
  unfold tick. eapply diskGrows_trans; [|apply settle_all_grows]. by apply diskGrows_same.
Qed.

Lemma processLoaded_disk loaded base dir w :
  files (processLoaded loaded base dir w).2 = files w /\
  dirs (processLoaded loaded base dir w).2 = dirs w.
Proof.
  assert (forall c doc arr i el w0,
            (files (assetCallback c doc arr base dir i el w0),
             dirs (assetCallback c doc arr base dir i el w0))
            = (files w0, dirs w0)) as Hcb.
  { intros. unfold assetCallback. repeat (case_match; simpl; try done). }
  unfold processLoaded, each. simpl.
  pose proof (fun c doc arr =>
                eachFrom_keeps (fun w0 => (files w0, dirs w0))
                  (assetCallback c doc arr base dir) (Hcb c doc arr)) as Hkeep.
  pose proof (Hkeep image) as E3. pose proof (Hkeep js) as E2.
  pose proof (Hkeep css) as E1.
  split.
  - eapply (f_equal fst) in E3, E2, E1. simpl in *.
    erewrite E3, E2, E1. done.
  - eapply (f_equal snd) in E3, E2, E1. simpl in *.
    erewrite E3, E2, E1. done.
Qed.

Lemma processHtmlContent_disk html base dir w :
  files (processHtmlContent html base dir w).2 = files w /\
  dirs (processHtmlContent html base dir w).2 = dirs w.
Proof. apply processLoaded_disk. Qed.

Lemma mkdir_grows dir w : diskGrows w (mkdir dir w).2.
Proof.
  unfold mkdir. case_match; simpl; [|apply tick_grows].
  eapply diskGrows_trans; [apply diskGrows_makeDirs | apply tick_grows].
Qed.

Lemma writeFile_grows path c w : diskGrows w (writeFile path c w).2.
Proof.
  unfold writeFile. case_match; simpl; [|apply tick_grows].
  eapply diskGrows_trans; [apply diskGrows_write | apply tick_grows].
Qed.

Lemma writeFile_written path c w :
  (writeFile path c w).1 = true -> is_Some (files (writeFile path c w).2 !! path).
Proof.
  unfold writeFile. case_match; simpl; [|done]. intros _.
  apply elem_of_dom.
  apply (proj1 (tick_grows (setFiles (<[path := c]> (files w)) w))).
  simpl. rewrite dom_insert_L. set_solver.
Qed.

Lemma onDisk_grows dir w w' ps :
  diskGrows w w' -> Forall (onDisk dir w) ps -> Forall (onDisk dir w') ps.
Proof.
  intros [Hf _] Hps. eapply Forall_impl; [exact Hps|]. intros p Hp. unfold onDisk in *.
  apply elem_of_dom, Hf, elem_of_dom, Hp.
Qed.

Lemma followLink_disk dir recur :
  (forall l w, diskGrows w (recur l w).2 /\
               Forall (onDisk dir (recur l w).2) (pages (recur l w).1)) ->
  forall ls ps0 a0 w, Forall (onDisk dir w) ps0 ->
  diskGrows w (foldl (followLink recur) (ps0, a0, w) ls).2 /\
  Forall (onDisk dir (foldl (followLink recur) (ps0, a0, w) ls).2)
         (foldl (followLink recur) (ps0, a0, w) ls).1.1.
Proof.
  intros Hrec ls. induction ls as [|l ls IH]; intros ps0 a0 w Hps0.
  - split; [apply diskGrows_refl | exact Hps0].
  - change (foldl (followLink recur) (ps0, a0, w) (l :: ls))
      with (foldl (followLink recur) (followLink recur (ps0, a0, w) l) ls).
    destruct (Hrec l w) as [Hg Hp].
    assert (exists a1 w2,
              followLink recur (ps0, a0, w) l = (ps0 ++ pages (recur l w).1, a1, w2) /\
              diskGrows (recur l w).2 w2) as (a1 & w2 & E & Hg2).
    { unfold followLink. destruct (recur l w) as [r w1]. simpl.
      eexists _, _. split; [reflexivity|]. simpl.
      eapply diskGrows_trans; [apply tick_grows|]. by apply diskGrows_same. }
    rewrite E.
    destruct (IH (ps0 ++ pages (recur l w).1) a1 w2) as [Hg3 Hp3].
    { apply Forall_app. split.
      - eapply onDisk_grows; [|exact Hps0]. by eapply diskGrows_trans.
      - by eapply onDisk_grows. }
    split; [|exact Hp3].
    eapply diskGrows_trans; [exact Hg|]. by eapply diskGrows_trans.
Qed.

Lemma archiveBody_disk recur url dir md cd w :
  (forall l w, diskGrows w (recur l w).2 /\
               Forall (onDisk dir (recur l w).2) (pages (recur l w).1)) ->
  diskGrows w (archiveBody recur url dir md cd w).2 /\
  Forall (onDisk dir (archiveBody recur url dir md cd w).2)
         (pages (archiveBody recur url dir md cd w).1).
Proof.
  intros Hrec. unfold archiveBody.
  assert (forall w0, diskGrows w w0 ->
            diskGrows w (emptyResult w0).2 /\
            Forall (onDisk dir (emptyResult w0).2) (pages (emptyResult w0).1)) as Hempty.
  { intros w0 Hg. split; [|constructor].
    eapply diskGrows_trans; [exact Hg|]. by apply diskGrows_same. }
  destruct (_ || _); [apply Hempty, diskGrows_refl|]. cbv zeta.
  set (wm := tick _).
  assert (diskGrows w wm) as Hm.
  { unfold wm. eapply diskGrows_trans; [|apply tick_grows]. by apply diskGrows_same. }
  clearbody wm.
  destruct (httpGet _ url) as [response|]; [|by apply Hempty].
  destruct (load (responseData (data response))) as [loaded|].
  2: { apply Hempty. eapply diskGrows_trans; [exact Hm | apply tick_grows]. }
  destruct (processLoaded_disk loaded url dir wm) as [Hpf Hpd].
  destruct (processLoaded loaded url dir wm) as [out w1].
  simpl in Hpf, Hpd.
  assert (diskGrows w (tick w1)) as H1.
  { eapply diskGrows_trans; [exact Hm|].
    eapply diskGrows_trans; [by apply diskGrows_same | apply tick_grows]. }
  destruct (urlPathname url) as [pathname|]; [|by apply Hempty].
  set (htmlPath := pathJoin _ (pageFilename pathname)).
  pose proof (mkdir_grows (dirname htmlPath) (tick w1)) as Hmk.
  destruct (mkdir (dirname htmlPath) (tick w1)) as [made w2]. simpl in Hmk.
  assert (diskGrows w w2) as H2 by (by eapply diskGrows_trans).
  destruct made; cbn [negb]; [|by apply Hempty].
  pose proof (writeFile_grows htmlPath (Payload (processedHtml out)) w2) as Hwr.
  pose proof (writeFile_written htmlPath (Payload (processedHtml out)) w2) as Hon.
  destruct (writeFile htmlPath (Payload (processedHtml out)) w2) as [written w3].
  simpl in Hwr, Hon.
  assert (diskGrows w w3) as H3 by (by eapply diskGrows_trans).
  destruct written; cbn [negb]; [|by apply Hempty].
  destruct (lengthOf (responseData (data response))) as [size|]; [|by apply Hempty].
  set (page := mkPage url _ _ _).
  assert (Forall (onDisk dir w3) [page]) as Hpage.
  { apply Forall_singleton. unfold onDisk, pagePath, page. simpl. by apply Hon. }
  destruct (cd <? md); [|by split].
  destruct (followLink_disk dir recur Hrec (take 10 (links out)) [page]
              (pr_assets out) w3 Hpage) as [Hg Hp].
  destruct (foldl _ _ _) as [[ps a] w4]. simpl in *.
  split; [by eapply diskGrows_trans | exact Hp].
Qed.

Lemma crawl_disk rem url dir md cd w :
  diskGrows w (crawl rem url dir md cd w).2 /\
  Forall (onDisk dir (crawl rem url dir md cd w).2) (pages (crawl rem url dir md cd w).1).
Proof.
  revert url cd w. induction rem as [|rem IH]; intros url cd w; simpl;
    apply archiveBody_disk.
  - intros l w0. split; [by apply diskGrows_same | constructor].
  - intros l w0. apply IH.
Qed.

(** X15 — After a crawl the file of every PageRecord it returns is on
    disk, under [pages] in the archive directory, and the crawl has taken
    nothing off the disk: every file and directory that was there still
    is. *)
Theorem pages_are_on_disk url dir md cd w :
  Forall (fun page =>
            is_Some (files (archivePage url dir md cd w).2
                       !! pathJoin (pathJoin dir "pages") (p_filename page)))
         (pages (archivePage url dir md cd w).1) /\
  dom (files w) ⊆ dom (files (archivePage url dir md cd w).2) /\
  dirs w ⊆ dirs (archivePage url dir md cd w).2.
Proof.
  unfold archivePage.
  destruct (crawl_disk (md - cd) url dir md cd w) as [[Hf Hd] Hp].
  split; [exact Hp|]. by split.
Qed.

End Disk.

(** ** More on the Archive Store *)

Lemma split_app a s :
  Str.split "/" (a +:+ "/" +:+ s) = Str.split "/" a ++ Str.split "/" s.
Proof.
  induction a as [|c a IH]; simpl; [done|]. rewrite IH.
  destruct (Ascii.eqb c "/"); [done|].
  pose proof (split_nonempty "/" a). by destruct (Str.split "/" a).
Qed.

Lemma concat_split s : String.concat "/" (Str.split "/" s) = s.
Proof.
  induction s as [|c r IH]; simpl; [done|].
  pose proof (split_nonempty "/" r) as Hne.
  destruct (Ascii.eqb_spec c "/") as [->|Hc].
  - destruct (Str.split "/" r) as [|y ys]; [done|].
    change (String.concat "/" ("" :: y :: ys))
      with ("" +:+ "/" +:+ String.concat "/" (y :: ys)).
    by rewrite IH.
  - destruct (Str.split "/" r) as [|seg [|s2 segs]]; [done| |].
    + simpl in *. by rewrite IH.
    + change (String.concat "/" (String c seg :: s2 :: segs))
        with (String c (seg +:+ "/" +:+ String.concat "/" (s2 :: segs))).
      f_equal. exact IH.
Qed.

Lemma prefixesFrom_whole above segs :
  Str.truthy above = true -> segs <> [] ->
  pathJoin above (String.concat "/" segs) ∈ prefixesFrom above segs.
Proof.
  revert above. induction segs as [|seg [|s2 segs] IH]; intros above Ha Hne; [done| |].
  - simpl. rewrite Ha. apply list_elem_of_here.
  - change (String.concat "/" (seg :: s2 :: segs))
      with (seg +:+ "/" +:+ String.concat "/" (s2 :: segs)).
    cbn [prefixesFrom]. rewrite Ha. apply list_elem_of_further.
    replace (pathJoin above (seg +:+ "/" +:+ String.concat "/" (s2 :: segs)))
      with (pathJoin (pathJoin above seg) (String.concat "/" (s2 :: segs))).
    + apply IH; [|done]. unfold pathJoin. by destruct above.
    + unfold pathJoin. by rewrite !app_assoc_string.
Qed.

Lemma archiveDir_made id : getArchiveDir id ∈ withParents (getArchiveDir id).
Proof.
  unfold withParents, getArchiveDir. unfold pathJoin at 2. rewrite split_app.
  change (Str.split "/" "archives") with ["archives"].
  change (prefixesFrom "" (["archives"] ++ Str.split "/" id))
    with ("archives" :: prefixesFrom "archives" (Str.split "/" id)).
  apply list_elem_of_further.
  rewrite <- (concat_split id) at 1.
  apply prefixesFrom_whole; [done | apply split_nonempty].
Qed.

(** ** The file of a page *)

Section PageFiles.
Context `{Platform}.

Lemma pathJoin_inj a a' b b' :
  noSlash b -> noSlash b' -> pathJoin a b = pathJoin a' b' -> a = a' /\ b = b'.
Proof.
  intros Hb Hb' E.
  assert (b = b') as <-.
  { rewrite <- (basename_pathJoin a b Hb), E. by apply basename_pathJoin. }
  split; [|done]. unfold pathJoin in E. by apply append_inv_tail in E.
Qed.

Lemma pathJoin_inj_r a b b' : pathJoin a b = pathJoin a b' -> b = b'.
Proof.
  unfold pathJoin. intros E. apply (f_equal Str.chars) in E.
  rewrite !chars_app in E. apply app_inv_head in E. simpl in E.
  injection E as E. by apply chars_inj.
Qed.

Lemma noSlash_resourcePath c : noSlash (resourcePath c).
Proof. destruct c; apply (bool_decide_unpack _); vm_compute; exact I. Qed.

Lemma noSlash_pages : noSlash "pages".
Proof. apply (bool_decide_unpack _). vm_compute. exact I. Qed.

(** The file of a page is not the file of an asset, of whatever archive. *)
Lemma pageFile_not_asset dir f d c name :
  noSlash f -> noSlash name ->
  pathJoin (pathJoin d (resourcePath c)) name <> pathJoin (pathJoin dir "pages") f.
Proof.
  intros Hf Hn E. apply pathJoin_inj in E as [E _]; [|done..].
  apply pathJoin_inj in E as [_ E];
    [by destruct c | apply noSlash_resourcePath | apply noSlash_pages].
Qed.

Lemma pageFile_not_metadata dir f :
  noSlash f -> pathJoin dir "metadata.json" <> pathJoin (pathJoin dir "pages") f.
Proof.
  intros Hf E. apply pathJoin_inj in E as [E _];
    [|apply (bool_decide_unpack _); vm_compute; exact I|done].
  apply (f_equal String.length) in E. unfold pathJoin in E.
  rewrite !length_append in E. simpl in E. lia.
Qed.

Section Spared.
Variables dir f : string.
Hypothesis f_noSlash : noSlash f.

Local Notation "'pageFile'" := (pathJoin (pathJoin dir "pages") f) (only parsing).

Lemma downloadResource_page url d c issued w :
  files (downloadResource url d (resourcePath c) issued w).2 !! pageFile
  = files w !! pageFile.
Proof.
  unfold downloadResource.
  destruct (httpGet issued url); [|done]. destruct (urlPathname url) as [p|]; [|done].
  destruct (diskOk (clock w) (dirname _)); [|done]. cbv zeta.
  destruct (diskOk _ _); cbn [snd]; [|done].
  simpl. apply lookup_insert_ne. apply pageFile_not_asset; [done|].
  apply safeName_noSlash, sanitizeFilename_safe.
Qed.

Lemma settle_page t w : files (settle t w) !! pageFile = files w !! pageFile.
Proof.
  unfold settle.
  pose proof (downloadResource_page (t_url t) (t_dir t) (t_cat t) (t_issued t) w) as Hd.
  by destruct (downloadResource _ _ _ _ w) as [[r|] w1].
Qed.

Lemma settle_all_page ts w :
  files (foldl (fun w t => settle t w) w ts) !! pageFile = files w !! pageFile.
Proof.
  revert w. induction ts as [|t ts IH]; intros w; simpl; [done|].
  by rewrite IH, settle_page.
Qed.

(** The event loop never writes the file of a page. *)
Lemma tick_page w : files (tick w) !! pageFile = files w !! pageFile.
Proof. unfold tick. by rewrite settle_all_page. Qed.

Lemma mkdir_page d w : files (mkdir d w).2 !! pageFile = files w !! pageFile.
Proof. unfold mkdir. case_match; simpl; by rewrite tick_page. Qed.

Lemma writeFile_page path c w :
  path <> pageFile -> files (writeFile path c w).2 !! pageFile = files w !! pageFile.
Proof.
  intros Hne. unfold writeFile. case_match; simpl; rewrite tick_page; [|done].
  simpl. by apply lookup_insert_ne.
Qed.

Lemma writeFile_stored c w :
  (writeFile pageFile c w).1 = true -> files (writeFile pageFile c w).2 !! pageFile = Some c.
Proof.
  unfold writeFile. case_match; simpl; [|done]. intros _. rewrite tick_page. simpl.
  apply lookup_insert_eq.
Qed.

Lemma spares_same w w' :
  visited w ⊆ visited w' -> files w' !! pageFile = files w !! pageFile ->
  spares dir f w w'.
Proof. by split. Qed.

Lemma spares_refl w : spares dir f w w.
Proof. by apply spares_same. Qed.

Lemma spares_trans w1 w2 w3 :
  spares dir f w1 w2 -> spares dir f w2 w3 -> spares dir f w1 w3.
Proof.
  intros [Hv1 Hf1] [Hv2 Hf2]. split; [set_solver|]. intros Hcond.
  rewrite Hf2, Hf1; [done|..].
  - intros u p Hu Hn. apply Hcond; [set_solver|done].
  - intros u p Hu Hn. apply Hcond; [done|set_solver].
Qed.

Lemma spares_tick w : spares dir f w (tick w).
Proof.
  apply spares_same; [|apply tick_page].
  change (seen (trace w) ⊆ seen (trace (tick w))). by rewrite tick_trace.
Qed.

Lemma followLink_spares recur ps a w link :
  spares dir f w (recur link w).2 ->
  spares dir f w (followLink recur (ps, a, w) link).2.
Proof.
  intros Hrec. unfold followLink. destruct (recur link w) as [r w1]. simpl in *.
  eapply spares_trans; [exact Hrec|].
  eapply spares_trans; [apply spares_tick|]. by apply spares_same.
Qed.

Lemma foldl_followLink_spares recur ls acc :
  (forall link w, spares dir f w (recur link w).2) ->
  spares dir f acc.2 (foldl (followLink recur) acc ls).2.
Proof.
  intros Hrec. revert acc. induction ls as [|l ls IH]; intros acc; simpl;
    [apply spares_refl|].
  eapply spares_trans; [|apply IH]. destruct acc as [[ps a] w].
  apply followLink_spares, Hrec.
Qed.

Lemma archiveBody_spares recur url md cd w :
  (cd < md -> forall link w, spares dir f w (recur link w).2) ->
  spares dir f w (archiveBody recur url dir md cd w).2.
Proof.
  intros Hrec. unfold archiveBody.
  destruct (bool_decide (url ∈ visited w) || (md <? cd)) eqn:Eguard;
    [by apply spares_same|].
  apply orb_false_iff in Eguard as [Hv%bool_decide_eq_false _].
  cbv zeta.
  set (wm := tick _).
  assert (visited wm = {[url]} ∪ visited w) as Hvm.
  { unfold wm. change (seen (trace (tick ?x))) with (seen (trace (tick x))).
    change (visited (tick ?x)) with (seen (trace (tick x))). by rewrite tick_trace. }
  assert (files wm !! pageFile = files w !! pageFile) as Hfm
    by (unfold wm; by rewrite tick_page).
  clearbody wm.
  assert (forall w0, visited w0 = {[url]} ∪ visited w ->
                     files w0 !! pageFile = files w !! pageFile ->
                     spares dir f w (emptyResult w0).2) as Hempty.
  { intros w0 Hv0 Hf0. apply spares_same; simpl; [rewrite Hv0; set_solver|done]. }
  destruct (httpGet _ url) as [response|]; [|by apply Hempty].
  destruct (load (responseData (data response))) as [loaded|].
  2: { apply Hempty; [|by rewrite tick_page].
       change (seen (trace (tick wm)) = {[url]} ∪ visited w). by rewrite tick_trace. }
  pose proof (processLoaded_trace loaded url dir wm) as Hpt.
  destruct (processLoaded_disk loaded url dir wm) as [Hpf _].
  destruct (processLoaded loaded url dir wm) as [out w1]. simpl in Hpt, Hpf.
  assert (visited (tick w1) = {[url]} ∪ visited w) as Hv1.
  { change (seen (trace (tick w1)) = {[url]} ∪ visited w).
    by rewrite tick_trace, Hpt. }
  assert (files (tick w1) !! pageFile = files w !! pageFile) as Hf1
    by (by rewrite tick_page, Hpf).
  destruct (urlPathname url) as [pathname|] eqn:Epath; [|by apply Hempty].
  set (htmlPath := pathJoin _ (pageFilename pathname)).
  pose proof (mkdir_trace (dirname htmlPath) (tick w1)) as Hmt.
  pose proof (mkdir_page (dirname htmlPath) (tick w1)) as Hmf.
  destruct (mkdir (dirname htmlPath) (tick w1)) as [made w2]. simpl in Hmt, Hmf.
  assert (visited w2 = {[url]} ∪ visited w) as Hv2
    by (change (seen (trace w2) = {[url]} ∪ visited w); by rewrite Hmt).
  rewrite Hf1 in Hmf.
  destruct made; cbn [negb]; [|by apply Hempty].
  pose proof (writeFile_trace htmlPath (Payload (processedHtml out)) w2) as Hwt.
  pose proof (writeFile_page htmlPath (Payload (processedHtml out)) w2) as Hwf.
  destruct (writeFile htmlPath (Payload (processedHtml out)) w2) as [written w3].
  simpl in Hwt, Hwf.
  assert (visited w3 = {[url]} ∪ visited w) as Hv3
    by (change (seen (trace w3) = {[url]} ∪ visited w); by rewrite Hwt).
  assert (spares dir f w w3) as Hs3.
  { split; [rewrite Hv3; set_solver|]. intros Hcond.
    rewrite Hwf; [exact Hmf|]. unfold htmlPath. intros E%pathJoin_inj_r.
    apply (Hcond url pathname); [rewrite Hv3; set_solver|done..]. }
  assert (forall w0, spares dir f w3 w0 -> spares dir f w w0) as Hnext
    by (intros w0; by apply spares_trans).
  destruct written; cbn [negb]; [|by apply Hnext, spares_same].
  destruct (lengthOf (responseData (data response))) as [size|];
    [|by apply Hnext, spares_same].
  destruct (cd <? md) eqn:Elt; [|exact Hs3].
  apply Nat.ltb_lt in Elt.
  pose proof (foldl_followLink_spares recur (take 10 (links out))
                ([mkPage url (pageFilename pathname) size (clock w3)], pr_assets out, w3)
                (Hrec Elt)) as Hloop.
  destruct (foldl _ _ _) as [[ps a] w4]. by apply Hnext.
Qed.

(** A crawl spares the file of a page unless a URL it visits gives a page
    that name. *)
Lemma archivePage_spares url md cd w :
  spares dir f w (archivePage url dir md cd w).2.
Proof.
  remember (md - cd) as rem eqn:E. revert url cd w E.
  induction rem as [|rem IH]; intros url cd w E;
    rewrite archivePage_unfold; apply archiveBody_spares.
  - lia.
  - intros Hlt link w'. apply IH. lia.
Qed.

End Spared.

(** The file of the page a call records holds the markup the Processor
    returned for it, unless another URL the call visits gives a page the
    same file name. *)
Lemma archivePage_file url dir md cd w page below :
  pages (archivePage url dir md cd w).1 = page :: below ->
  exists response loaded,
    httpGet (clock w) url = Some response /\
    load (responseData (data response)) = Some loaded /\
    p_url page = url /\
    ((forall u pathname,
        u ∈ visited (archivePage url dir md cd w).2 -> (u ∉ visited w) -> u <> url ->
        urlPathname u = Some pathname -> pageFilename pathname <> p_filename page) ->
     files (archivePage url dir md cd w).2 !! pagePath dir page
     = Some (Payload (renderHtml loaded))).
Proof.
  rewrite archivePage_unfold. unfold archiveBody.
  destruct (bool_decide (url ∈ visited w) || (md <? cd)) eqn:Eguard; [done|].
  cbv zeta. set (wm := tick _). simpl clock.
  assert (visited wm = {[url]} ∪ visited w) as Hvm.
  { unfold wm. change (visited (tick ?x)) with (seen (trace (tick x))).
    by rewrite tick_trace. }
  clearbody wm.
  destruct (httpGet (clock w) url) as [response|]; [|done].
  destruct (load (responseData (data response))) as [loaded|] eqn:Eload; [|done].
  pose proof (processLoaded_trace loaded url dir wm) as Hpt.
  pose proof (processedHtml_loaded loaded url dir wm) as Hhtml.
  destruct (processLoaded loaded url dir wm) as [out w1]. simpl in Hpt, Hhtml.
  destruct (urlPathname url) as [pathname|]; [|done].
  set (htmlPath := pathJoin _ (pageFilename pathname)).
  pose proof (mkdir_trace (dirname htmlPath) (tick w1)) as Hmt.
  destruct (mkdir (dirname htmlPath) (tick w1)) as [made w2]. simpl in Hmt.
  destruct made; cbn [negb]; [|done].
  pose proof (writeFile_trace htmlPath (Payload (processedHtml out)) w2) as Hwt.
  pose proof (writeFile_stored dir (pageFilename pathname)
                (safeName_noSlash _ (sanitizeFilename_safe _))
                (Payload (processedHtml out)) w2) as Hws.
  fold htmlPath in Hws.
  destruct (writeFile htmlPath (Payload (processedHtml out)) w2) as [written w3].
  simpl in Hwt, Hws.
  destruct written; cbn [negb]; [|done]. specialize (Hws eq_refl).
  unfold htmlPath in Hws.
  assert (visited w3 = {[url]} ∪ visited w) as Hv3.
  { change (seen (trace w3) = {[url]} ∪ visited w).
    by rewrite Hwt, Hmt, tick_trace, Hpt. }
  destruct (lengthOf (responseData (data response))) as [size|]; [|done].
  destruct (cd <? md) eqn:Elt.
  - pose proof (foldl_followLink_spares dir (pageFilename pathname)
                  (safeName_noSlash _ (sanitizeFilename_safe _))
                  (fun link w => archivePage link dir md (S cd) w)
                  (take 10 (links out))
                  ([mkPage url (pageFilename pathname) size (clock w3)], pr_assets out, w3)
                  (fun link w0 => archivePage_spares dir (pageFilename pathname)
                                    (safeName_noSlash _ (sanitizeFilename_safe _))
                                    link md (S cd) w0)) as [_ Hloop].
    destruct (foldl_followLink_pages (fun link w => archivePage link dir md (S cd) w)
                (take 10 (links out))
                [mkPage url (pageFilename pathname) size (clock w3)]
                (pr_assets out) w3) as (more & Hps).
    destruct (foldl _ _ _) as [[ps a] w4]. simpl in *. subst ps.
    intros [= <- <-]. exists response, loaded. repeat split; try done.
    intros Hcond. unfold pagePath. simpl. rewrite Hloop; [by rewrite Hws, Hhtml|].
    intros u p Hu Hn Hp. apply (Hcond u p); [done|set_solver|set_solver|done].
  - simpl. intros [= <- <-]. exists response, loaded. repeat split; try done.
    intros _. unfold pagePath. simpl. by rewrite Hws, Hhtml.
Qed.

End PageFiles.

Section StoreOutcomes.
Context `{Platform}.

Lemma archiveSite_kept url dir w : archives (archiveSite url dir w).2 = archives w.
Proof.
  unfold archiveSite.
  exact (proj1 (Visit_kept 2) _ _ _ _ _
           (archivePage_Visit url dir 2 0 (setVisited ∅ w))).
Qed.

Lemma mkdir_kept dir w : archives (mkdir dir w).2 = archives w.
Proof. exact (f_equal kept (mkdir_trace dir w)). Qed.

Lemma writeFile_kept path c w : archives (writeFile path c w).2 = archives w.
Proof. exact (f_equal kept (writeFile_trace path c w)). Qed.

(** X16 — The create handler replies with a client error exactly when
    the URL of the request is empty or does not parse, and then it has
    done nothing: no directory, no request, no change of the index. *)
Theorem createArchive_rejects_bad_url url archiveId w :
  ((createArchive url archiveId w).1 = BadRequest <->
   url = "" \/ isValidUrl url = false) /\
  ((createArchive url archiveId w).1 = BadRequest ->
   (createArchive url archiveId w).2 = w).
Proof.
  unfold createArchive.
  destruct (negb (Str.truthy url) || negb (isValidUrl url)) eqn:Eguard.
  - split; [|done]. split; [intros _|done].
    apply orb_true_iff in Eguard as [Hu|Hv].
    + left. by destruct url.
    + right. by destruct (isValidUrl url).
  - apply orb_false_iff in Eguard as [Hu Hv].
    assert (url <> "" /\ isValidUrl url = true) as [Hne Hvalid].
    { split; [by destruct url | by destruct (isValidUrl url)]. }
    destruct (mkdir _ w) as [[] w1]; cbn [negb].
    + destruct (archiveSite url _ w1) as [result w2].
      destruct (writeFile _ _ _) as [[] w4]; cbn [negb fst snd];
        (split; [split; [done | intros [?|?]; congruence] | done]).
    + cbn [fst snd]. split; [split; [done | intros [?|?]; congruence] | done].
Qed.

(** X17 — The index is most recent first and only takes completed
    archives: a reply with an archive has put it at the head of the list,
    above the archives that were there, with the identifier drawn, the URL
    of the request, the time of the request and the number of its pages;
    any other reply has left the list as it was. *)
Theorem index_after_create url archiveId w :
  match (createArchive url archiveId w).1 with
  | Created archive =>
      archives (createArchive url archiveId w).2 = archive :: archives w /\
      ar_id archive = archiveId /\ ar_url archive = url /\
      ar_status archive = "completed" /\ ar_timestamp archive = clock w /\
      ar_pagesArchived archive = length (ar_pages archive)
  | _ => archives (createArchive url archiveId w).2 = archives w
  end.
Proof.
  unfold createArchive. destruct (_ || _); [done|].
  pose proof (mkdir_kept (getArchiveDir archiveId) w) as Hmk.
  destruct (mkdir _ w) as [[] w1]; cbn [negb]; [|exact Hmk].
  pose proof (archiveSite_kept url (getArchiveDir archiveId) w1) as Hsite.
  destruct (archiveSite url _ w1) as [result w2].
  set (w3 := tick w2).
  pose proof (writeFile_kept (pathJoin (getArchiveDir archiveId) "metadata.json")
                (Metadata archiveId (pages result) (readArray (assets result) w3))
                w3) as Hwr.
  destruct (writeFile _ _ w3) as [[] w4]; cbn [negb fst snd] in *.
  - repeat split; try done. simpl.
    unfold w3 in Hwr. rewrite tick_archives in Hwr. congruence.
  - unfold w3 in Hwr. rewrite tick_archives in Hwr. congruence.
Qed.

Lemma find_None {A} (f : A -> bool) l :
  List.find f l = None <-> Forall (fun a => f a = false) l.
Proof.
  induction l as [|a l IH]; simpl; [by split|].
  destruct (f a) eqn:E.
  - split; [done|]. intros Hall. apply Forall_cons in Hall as [? _]. congruence.
  - rewrite IH. split; [by constructor | by intros [_ ?]%Forall_cons].
Qed.

Lemma getArchive_None id w :
  getArchive id w = None <-> Forall (fun a => ar_id a <> id) (archives w).
Proof.
  unfold getArchive. rewrite find_None. apply Forall_iff. intros a.
  by rewrite bool_decide_eq_false.
Qed.

Lemma findIndex_None id l :
  findIndex id l = None <-> Forall (fun a => ar_id a <> id) l.
Proof.
  unfold findIndex. rewrite fmap_None. apply list_find_None.
Qed.

Lemma findIndex_Some id l i :
  findIndex id l = Some i ->
  exists a, l !! i = Some a /\ ar_id a = id /\
            Forall (fun b => ar_id b <> id) (take i l).
Proof.
  unfold findIndex. destruct (list_find _ l) as [[j a]|] eqn:E; [|done].
  intros [= <-]. apply list_find_Some in E as (Hl & Ha & Hbefore).
  exists a. split; [done|]. split; [done|].
  apply Forall_lookup. intros k b Hk.
  apply lookup_take_Some in Hk as [Hk Hlt]. by eapply Hbefore.
Qed.

Lemma deleteArchive_index id w :
  archives (deleteArchive id w).2
  = match (deleteArchive id w).1, findIndex id (archives w) with
    | Deleted, Some i => delete i (archives w)
    | _, _ => archives w
    end.
Proof.
  unfold deleteArchive. destruct (findIndex id (archives w)) as [i|]; [|done].
  unfold rmdirRecursive. destruct (_ && _); simpl; by rewrite tick_archives.
Qed.

(** X18 — Lookup and deletion agree on what is there: the delete handler
    replies NotFound exactly when the lookup by identifier finds nothing,
    which is when no archive of the index has the identifier; and what
    the lookup finds is an archive of the index with that identifier. *)
Theorem lookup_and_delete_agree id w :
  ((deleteArchive id w).1 = NotFound <-> getArchive id w = None) /\
  (getArchive id w = None <-> Forall (fun a => ar_id a <> id) (archives w)) /\
  match getArchive id w with
  | Some a => ar_id a = id /\ a ∈ archives w
  | None => True
  end.
Proof.
  split; [|split; [apply getArchive_None|]].
  - rewrite getArchive_None, <- findIndex_None. unfold deleteArchive.
    destruct (findIndex id (archives w)) as [i|]; [|done].
    destruct (rmdirRecursive _ w); simpl; split; done.
  - unfold getArchive. destruct (List.find _ _) as [a|] eqn:E; [|done].
    apply find_some in E as [Hin Ha]. split.
    + by apply bool_decide_eq_true in Ha.
    + by apply list_elem_of_In.
Qed.

Lemma find_delete {A} (f : A -> bool) l i a :
  l !! i = Some a -> f a = false -> List.find f (delete i l) = List.find f l.
Proof.
  revert i. induction l as [|b l IH]; intros [|i] Hl Ha; simpl in *; try done.
  - injection Hl as ->. by rewrite Ha.
  - destruct (f b); [done|]. by apply IH.
Qed.

(** X19 — Deleting an archive leaves the others where they are: whatever
    the delete handler replies, the lookup of any other identifier finds
    what it found before. *)
Theorem delete_keeps_other_archives id id' w :
  id' <> id ->
  getArchive id' (deleteArchive id w).2 = getArchive id' w.
Proof.
  intros Hne. unfold getArchive. rewrite deleteArchive_index.
  destruct (deleteArchive id w).1; try done.
  destruct (findIndex id (archives w)) as [i|] eqn:Ei; [|done].
  apply findIndex_Some in Ei as (a & Hl & Ha & _).
  apply (find_delete _ _ _ a); [done|]. apply bool_decide_eq_false. congruence.
Qed.

(** X20 — With distinct identifiers in the index, an archive that has
    been deleted is gone: the lookup of its identifier finds nothing, the
    index is shorter by one, and its identifiers are still distinct. *)
Theorem deleted_archive_is_gone id w :
  NoDup (ar_id <$> archives w) ->
  (deleteArchive id w).1 = Deleted ->
  getArchive id (deleteArchive id w).2 = None /\
  S (length (archives (deleteArchive id w).2)) = length (archives w) /\
  NoDup (ar_id <$> archives (deleteArchive id w).2).
Proof.
  intros Hnd Hdel. rewrite getArchive_None, deleteArchive_index, Hdel.
  destruct (findIndex id (archives w)) as [i|] eqn:Ei.
  2: { unfold deleteArchive in Hdel. by rewrite Ei in Hdel. }
  apply findIndex_Some in Ei as (a & Hl & Ha & Hbefore).
  pose proof (take_drop_middle _ _ _ Hl) as Hsplit.
  rewrite <- Hsplit in Hnd. rewrite fmap_app, fmap_cons in Hnd.
  apply NoDup_app in Hnd as (Hnd1 & Hdisj & Hnd2).
  apply NoDup_cons in Hnd2 as [Hnotin Hnd2].
  rewrite delete_take_drop. split; [|split].
  - apply Forall_app. split; [exact Hbefore|].
    apply Forall_forall. intros b Hb Hid. apply Hnotin.
    rewrite Ha, <- Hid. by apply list_elem_of_fmap_2.
  - apply (f_equal length) in Hsplit. rewrite length_app in Hsplit |- *.
    simpl in Hsplit. lia.
  - rewrite fmap_app. apply NoDup_app. split; [done|]. split; [|done].
    intros x Hx1 Hx2. apply (Hdisj x Hx1). by right.
Qed.

Lemma archiveSite_disk url dir w :
  diskGrows w (archiveSite url dir w).2 /\
  Forall (onDisk dir (archiveSite url dir w).2) (pages (archiveSite url dir w).1).
Proof.
  unfold archiveSite, archivePage.
  destruct (crawl_disk (2 - 0) url dir 2 0 (setVisited ∅ w)) as [Hg Hp].
  split; [|exact Hp]. eapply diskGrows_trans; [|exact Hg]. by apply diskGrows_same.
Qed.

(** What is on disk when [createArchive] replies with an archive. *)
Lemma createArchive_Created_disk url archiveId w archive w' :
  createArchive url archiveId w = (Created archive, w') ->
  diskGrows w w' /\
  getArchiveDir archiveId ∈ dirs w' /\
  is_Some (files w' !! pathJoin (getArchiveDir archiveId) "metadata.json") /\
  Forall (onDisk (getArchiveDir archiveId) w') (ar_pages archive).
Proof.
  unfold createArchive. case_match; [done|].
  pose proof (mkdir_grows (getArchiveDir archiveId) w) as Hmk.
  assert ((mkdir (getArchiveDir archiveId) w).1 = true ->
          getArchiveDir archiveId ∈ dirs (mkdir (getArchiveDir archiveId) w).2) as Hdir.
  { unfold mkdir. case_match; simpl; [|done]. intros _.
    apply (proj2 (tick_grows (makeDirs (getArchiveDir archiveId) w))).
    unfold makeDirs. cbn [dirs setDirs].
    apply elem_of_union_l, elem_of_list_to_set, archiveDir_made. }
  destruct (mkdir _ w) as [[] w1]; cbn [negb fst snd] in *; [|done].
  destruct (archiveSite_disk url (getArchiveDir archiveId) w1) as [Hsite Hpages].
  destruct (archiveSite url _ w1) as [result w2]. cbn [fst snd] in *.
  set (w3 := tick w2).
  pose proof (tick_grows w2) as Htick. fold w3 in Htick.
  pose proof (writeFile_grows (pathJoin (getArchiveDir archiveId) "metadata.json")
                (Metadata archiveId (pages result) (readArray (assets result) w3))
                w3) as Hwr.
  pose proof (writeFile_written (pathJoin (getArchiveDir archiveId) "metadata.json")
                (Metadata archiveId (pages result) (readArray (assets result) w3))
                w3) as Hmeta.
  destruct (writeFile _ _ w3) as [[] w4]; cbn [negb fst snd] in *; [|done].
  intros [= <- <-]. simpl.
  assert (diskGrows w1 w4) as H14.
  { eapply diskGrows_trans; [exact Hsite|]. by eapply diskGrows_trans. }
  split; [by eapply diskGrows_trans|]. split; [by apply (proj2 H14), Hdir|].
  split; [by apply Hmeta|].
  eapply onDisk_grows; [|exact Hpages]. by eapply diskGrows_trans.
Qed.

(** X21 — An archive the server has just replied with is all on disk:
    its directory, its [metadata.json] and the file of each of its
    PageRecords; and creating it has taken nothing off the disk. *)
Theorem created_archive_is_on_disk url archiveId w archive w' :
  createArchive url archiveId w = (Created archive, w') ->
  getArchiveDir archiveId ∈ dirs w' /\
  is_Some (files w' !! pathJoin (getArchiveDir archiveId) "metadata.json") /\
  Forall (fun page =>
            is_Some (files w' !! pathJoin (pathJoin (getArchiveDir archiveId) "pages")
                                          (p_filename page)))
         (ar_pages archive) /\
  dom (files w) ⊆ dom (files w') /\ dirs w ⊆ dirs w'.
Proof.
  intros Hc. destruct (createArchive_Created_disk _ _ _ _ _ Hc)
    as ([Hf Hd] & Hdir & Hmeta & Hpages).
  by repeat split.
Qed.

(** X22 — An archive the server has just replied with can be deleted at
    once: if the disk lets the directory go, the delete handler replies
    with success and the index is what it was before the archive was
    created. *)
Theorem created_archive_can_be_deleted url archiveId w archive w' :
  createArchive url archiveId w = (Created archive, w') ->
  diskOk (clock w') (getArchiveDir archiveId) = true ->
  (deleteArchive archiveId w').1 = Deleted /\
  archives (deleteArchive archiveId w').2 = archives w.
Proof.
  intros Hc Hok.
  destruct (createArchive_Created_disk _ _ _ _ _ Hc) as (_ & Hdir & _).
  destruct (createArchive_Created _ _ _ _ _ Hc) as (_ & _ & _ & _ & _ & Hid & Hindex).
  assert (findIndex archiveId (archives w') = Some 0) as Hfind.
  { rewrite Hindex. unfold findIndex. simpl. by rewrite decide_True. }
  unfold deleteArchive, rmdirRecursive.
  rewrite Hfind, (bool_decide_eq_true_2 _ Hdir), Hok. simpl.
  split; [done|]. by rewrite tick_archives; simpl; rewrite Hindex.
Qed.

(** X23 — The main page of an archive is the page that was asked for.
    The first PageRecord of an archive the server replies with, which the
    client takes as main page, is that of the URL of the request; its file
    under [pages] holds the markup the Processor returned for that URL,
    as rendered from the response to the request made when the crawl
    started, provided no other URL visited in the crawl gives a page the
    same file name; and an archive without a first page has no page at
    all. *)
Theorem main_page_is_the_root url archiveId w archive w' :
  createArchive url archiveId w = (Created archive, w') ->
  match Frontend.mainPage (ar_pages archive) with
  | Some page =>
      p_url page = url /\
      exists response loaded,
        httpGet (clock (mkdir (getArchiveDir archiveId) w).2) url = Some response /\
        load (responseData (data response)) = Some loaded /\
        ((forall u pathname,
            u ∈ visited w' -> u <> url -> urlPathname u = Some pathname ->
            pageFilename pathname <> p_filename page) ->
         files w' !! pagePath (getArchiveDir archiveId) page
         = Some (Payload (renderHtml loaded)))
  | None => ar_pages archive = [] /\ ar_pagesArchived archive = 0
  end.
Proof.
  unfold createArchive. case_match; [done|].
  destruct (mkdir _ w) as [[] w1]; cbn [negb snd]; [|done].
  pose proof (archivePage_file url (getArchiveDir archiveId) 2 0 (setVisited ∅ w1))
    as Hfile.
  pose proof (proj1 (Visit_filenames 2) _ _ _ _ _
                (archivePage_Visit url (getArchiveDir archiveId) 2 0 (setVisited ∅ w1)))
    as Hsafe.
  fold (archiveSite url (getArchiveDir archiveId) w1) in Hfile, Hsafe.
  destruct (archiveSite url _ w1) as [result w2].
  set (w3 := tick w2).
  pose proof (writeFile_trace (pathJoin (getArchiveDir archiveId) "metadata.json")
                (Metadata archiveId (pages result) (readArray (assets result) w3))
                w3) as Hwt.
  pose proof (fun f Hf =>
                writeFile_page (getArchiveDir archiveId) f Hf
                  (pathJoin (getArchiveDir archiveId) "metadata.json")
                  (Metadata archiveId (pages result) (readArray (assets result) w3))
                  w3 (pageFile_not_metadata _ f Hf)) as Hwf.
  destruct (writeFile _ _ w3) as [[] w4]; cbn [negb]; [|done].
  intros [= <- <-]. cbn [ar_pages ar_pagesArchived fst snd] in *.
  destruct (pages result) as [|page below] eqn:Epages; [done|]. simpl.
  destruct (Hfile page below eq_refl) as (response & loaded & Hget & Hload & Hurl & Hkeep).
  split; [exact Hurl|]. exists response, loaded.
  split; [exact Hget|]. split; [exact Hload|]. intros Hcond.
  apply Forall_cons in Hsafe as [Hsafe%safeName_noSlash _].
  unfold pagePath in *. rewrite (Hwf _ Hsafe). unfold w3.
  rewrite (tick_page _ _ Hsafe). apply Hkeep.
  intros u pathname Hu _ Hne. apply Hcond; [|exact Hne].
  change (u ∈ seen (trace w4)). rewrite Hwt. unfold w3. by rewrite tick_trace.
Qed.

End StoreOutcomes.

(** ** The client's list and the stored total *)

(** X24 — The client's list after an archive comes in has it at the
    head and nowhere else: entries with its identifier are dropped, the
    others keep their order; identifiers that were distinct stay so, and
    taking the same archive in twice changes nothing more. *)
Theorem addArchive_keeps_one {A : Type} (id : A -> string) (newArchive : A)
    (prev : list A) :
  head (Frontend.addArchive id newArchive prev) = Some newArchive /\
  tail (Frontend.addArchive id newArchive prev)
  = filter (fun a => id a <> id newArchive) prev /\
  (id newArchive ∉ id <$> tail (Frontend.addArchive id newArchive prev)) /\
  (NoDup (id <$> prev) -> NoDup (id <$> Frontend.addArchive id newArchive prev)) /\
  Frontend.addArchive id newArchive (Frontend.addArchive id newArchive prev)
  = Frontend.addArchive id newArchive prev.
Proof.
  assert (forall l, List.filter (fun a => negb (String.eqb (id a) (id newArchive))) l
                    = filter (fun a => id a <> id newArchive) l) as Hfilter.
  { induction l as [|a l IH]; simpl; [done|]. rewrite filter_cons, IH.
    destruct (String.eqb_spec (id a) (id newArchive)); simpl; by case_decide. }
  assert (id newArchive ∉ id <$> filter (fun a => id a <> id newArchive) prev) as Hnot.
  { intros (a & Heq & Ha)%list_elem_of_fmap. apply list_elem_of_filter in Ha as [Ha _].
    congruence. }
  unfold Frontend.addArchive. cbn [head tail List.filter].
  rewrite String.eqb_refl. cbn [negb]. rewrite !Hfilter.
  split; [done|]. split; [done|]. split; [exact Hnot|]. split.
  - intros Hnd. rewrite fmap_cons. apply NoDup_cons. split; [exact Hnot|].
    eapply sublist_NoDup; [exact Hnd|]. apply fmap_sublist, sublist_filter.
  - f_equal. apply list_filter_filter_l. naive_solver.
Qed.

Lemma round_bounds (a : N) :
  (1024 * ((a + 512) / 1024) <= a + 512)%N /\
  (a + 512 < 1024 * ((a + 512) / 1024) + 1024)%N.
Proof.
  pose proof (N.div_mod' (a + 512) 1024) as Ha.
  pose proof (N.mod_lt (a + 512) 1024 ltac:(lia)) as Hra.
  generalize dependent ((a + 512) `mod` 1024)%N.
  generalize dependent ((a + 512) `div` 1024)%N. intros. lia.
Qed.

Lemma pretty_N_go_ne_N x s s' : s <> "N" +:+ s' -> pretty_N_go x s <> "N" +:+ s'.
Proof.
  revert s. induction (N.lt_wf_0 x) as [x _ IH]; intros s Hs.
  assert (x = 0 \/ 0 < x)%N as [->|Hx] by lia.
  - by rewrite pretty_N_go_0.
  - rewrite pretty_N_go_step by done. apply IH.
    { by apply N.div_lt. }
    unfold pretty_N_char. by repeat case_match.
Qed.

(** The decimal text of a number is not [NaN]. *)
Lemma pretty_N_ne_NaN (n : N) : pretty n <> "NaN".
Proof.
  unfold pretty, pretty_N. case_decide; [done|]. by apply (pretty_N_go_ne_N n "" "aN").
Qed.

(** X25 — The stored total of a byte count tells it to within a
    kilobyte: two byte counts stored as the same text differ by less than
    1024, and the number in the text is the count divided by 1024 and
    rounded to the nearest integer, halves upwards.  The text of a byte
    count is never [NaNKB], the text stored for a total that is [NaN]. *)
Theorem formatSize_within_a_kilobyte `{Platform} a b :
  formatSize (Num a) = formatSize (Num b) ->
  (a < b + 1024)%N /\ (b < a + 1024)%N /\
  (exists q, formatSize (Num a) = pretty q +:+ "KB" /\
             (1024 * q <= a + 512)%N /\ (a + 512 < 1024 * q + 1024)%N) /\
  formatSize NaN = "NaNKB" /\
  formatSize (Num a) <> formatSize NaN.
Proof.
  unfold formatSize. intros E%append_inv_tail%(inj pretty).
  pose proof (round_bounds a) as [Ha Ha']. pose proof (round_bounds b) as [Hb Hb'].
  rewrite E in Ha, Ha'.
  split; [lia|]. split; [lia|]. split; [|split; [done|]].
  - exists ((b + 512) / 1024)%N. rewrite E. split; [done|]. lia.
  - change "NaNKB" with ("NaN" +:+ "KB"). intros Hn%append_inv_tail.
    by apply pretty_N_ne_NaN in Hn.
Qed.
(** ** Runs on the small site *)

#[local] Existing Instance Site.platform.

(** C2 — The Processor does not wait for the downloads it starts.  On
    the page [P1], whose stylesheet downloads well, [processHtmlContent]
    returns while the callback of the stylesheet is still suspended: the
    markup it returns carries the remote reference and its asset array is
    empty.  When the download settles, at the next [await] of the caller,
    the record is pushed as [downloaded] and the document object is
    rewritten, but the markup was rendered before: [archivePage] writes
    the page with the remote reference next to an asset recorded as
    downloaded. *)
Theorem downloads_not_awaited :
  let out := processHtmlContent "P1" "http://a.test/p1" "archives/id1" boot in
  let run := archivePage "http://a.test/p1" "archives/id1" 0 0 boot in
  processedHtml out.1 = "a=/ a=/p2 link=/s.css" /\
  readArray (pr_assets out.1) out.2 = [] /\
  inflight out.2 = [mkTask 0 2 0 css "http://a.test/s.css" "archives/id1" 0] /\
  readArray (pr_assets out.1) (tick out.2)
  = [mkAsset css "http://a.test/s.css" downloaded None] /\
  docs (tick out.2) !! 0
  = Some [mkElement TagA (Some "/"); mkElement TagA (Some "/p2");
          mkElement TagStylesheet (Some "/archives/id1/css/_s.css")] /\
  readArray (assets run.1) run.2 = [mkAsset css "http://a.test/s.css" downloaded None] /\
  files run.2 !! "archives/id1/pages/p1" = Some (Payload "a=/ a=/p2 link=/s.css").
Proof. vm_compute. repeat split; reflexivity. Qed.

(** C5 — A download that fails leaves no record.  On the page [PIC] the
    request for the image is started and answers 404, and the reference
    of the script does not resolve: once everything has settled the asset
    array holds the [failed] record of the script, pushed from the [catch],
    and nothing for the image; the markup keeps both references. *)
Theorem failed_download_not_recorded :
  let out := processHtmlContent "PIC" "http://a.test/pic" "archives/id1" boot in
  downloads out.2 = ["http://a.test/missing.png"] /\
  httpGet 0 "http://a.test/missing.png" = None /\
  inflight (tick out.2) = [] /\
  readArray (pr_assets out.1) (tick out.2) = [mkAsset js "http://" failed None] /\
  processedHtml out.1 = "img=/missing.png script=http://".
Proof. vm_compute. repeat split; reflexivity. Qed.

(** C4, as first stated, fails on a hyperlink with an empty [href]: it is
    not fragment-only, [mailto:] or [tel:], and it resolves to the page
    itself, on the same host; the guard [href && ...] drops it. *)
Lemma empty_href_not_a_link :
  specLink (parseHtml "SELF") "http://a.test/self" "http://a.test/self" /\
  "http://a.test/self"
    ∉ links (processHtmlContent "SELF" "http://a.test/self" "archives/id1" boot).1.
Proof.
  split.
  - exists "". unfold linkTarget. repeat split; try reflexivity.
    apply (bool_decide_unpack _). vm_compute. exact I.
  - apply (bool_decide_unpack _). vm_compute. exact I.
Qed.

(** C7, as first stated, fails: what is stored is a text in kilobytes.
    Two archives whose pages weigh 4 and 2, neither with any asset, store
    the same total, which is not the numeral of the sum; and the archive
    of a page whose body is a JSON object, which has no [length], stores a
    total that is no number at all. *)
Lemma stored_total_is_not_the_sum :
  (createArchive "http://a.test/x" "idx" boot).1
  = Created (mkArchive "idx" "http://a.test/x" 0 "completed" 1 0 "0KB"
               [mkPage "http://a.test/x" "x" (Num 4) 5] 0) /\
  (createArchive "http://a.test/y" "idy" boot).1
  = Created (mkArchive "idy" "http://a.test/y" 0 "completed" 1 0 "0KB"
               [mkPage "http://a.test/y" "y" (Num 2) 5] 0) /\
  readArray 0 (createArchive "http://a.test/x" "idx" boot).2 = [] /\
  readArray 0 (createArchive "http://a.test/y" "idy" boot).2 = [] /\
  pagesSize [mkPage "http://a.test/x" "x" (Num 4) 5] = Num 4 /\
  pagesSize [mkPage "http://a.test/y" "y" (Num 2) 5] = Num 2 /\
  "0KB" <> pretty 4%N /\
  httpGet 0 "http://a.test/data.json" = Some (mkResponse "{}" (Some "application/json")) /\
  responseData "{}" = Parsed (Some []) (Some Undefined) /\
  (createArchive "http://a.test/data.json" "idj" boot).1
  = Created (mkArchive "idj" "http://a.test/data.json" 0 "completed" 1 0 "NaNKB"
               [mkPage "http://a.test/data.json" "data.json" Undefined 5] 0).
Proof. vm_compute. repeat split; try reflexivity. discriminate. Qed.

(** C9, as first stated, fails when the directory of an archive is
    already absent: the removal throws, the reply is a server error and
    the record stays in the index. *)
Lemma absent_directory_fails_delete :
  findIndex "id1" (archives Site.orphaned) = Some 0 /\
  (getArchiveDir "id1" ∉ dirs Site.orphaned) /\
  (deleteArchive "id1" Site.orphaned).1 = ServerError /\
  archives (deleteArchive "id1" Site.orphaned).2 = archives Site.orphaned.
Proof.
  split; [vm_compute; reflexivity|]. split; [|split; vm_compute; reflexivity].
  apply (bool_decide_unpack _). vm_compute. exact I.
Qed.

Lemma depth_limit_and_fan_out_witness :
  let links := linksOf (parseHtml "MANY") "http://a.test/many" in
  let run := archivePage "http://a.test/many" "archives/id1" 1 0 boot in
  links = (fun n => "http://a.test/n" +:+ n)
            <$> ["01"; "02"; "03"; "04"; "05"; "06"; "07"; "08"; "09"; "10"; "11"; "12"] /\
  p_url <$> pages run.1 = ["http://a.test/many"] /\
  requests run.2 = "http://a.test/many" :: take 10 links /\
  console run.2 = ("http://a.test/many", 0) :: ((fun link => (link, 1)) <$> take 10 links) /\
  Forall (fun link => link ∈ visited run.2) (take 10 links) /\
  Forall (fun link => link ∉ visited run.2) (drop 10 links) /\
  requests (archivePage "http://a.test/many" "archives/id1" 0 0 boot).2
  = ["http://a.test/many"].
Proof.
  intros links run.
  split; [vm_compute; reflexivity|]. split; [vm_compute; reflexivity|].
  split; [vm_compute; reflexivity|]. split; [vm_compute; reflexivity|].
  split; [|split; [|vm_compute; reflexivity]].
  - destruct (pages run.1) as [|page below] eqn:Epages; [vm_compute in Epages; discriminate|].
    destruct (proj1 (proj2 (proj2 (depth_limit_and_fan_out
                                     "http://a.test/many" "archives/id1" 1 0 boot)))
                page below Epages)
      as (response & loaded & Hget & Hload & _ & Hseen & _).
    vm_compute in Hget. injection Hget as <-.
    vm_compute in Hload. injection Hload as <-.
    exact Hseen.
  - apply (bool_decide_unpack _). vm_compute. exact I.
Defined.

Lemma fetch_error_gives_empty_result_witness :
  httpGet (clock boot) "http://a.test/gone" = None /\
  pages (archivePage "http://a.test/gone" "archives/id1" 2 1 boot).1 = [] /\
  (exists later,
     requests (foldl (followLink (fun link w => archivePage link "archives/id1" 2 1 w))
                     ([], 0, boot) ["http://a.test/gone"; "http://a.test/p2"]).2
     = requests boot ++ "http://a.test/gone" :: "http://a.test/p2" :: later) /\
  requests (archivePage Site.root "archives/id1" 1 0 boot).2
  = ["http://a.test/"; "http://a.test/p1"; "http://a.test/gone"; "http://a.test/p2"] /\
  p_url <$> pages (archivePage Site.root "archives/id1" 1 0 boot).1
  = ["http://a.test/"; "http://a.test/p1"; "http://a.test/p2"].
Proof.
  pose proof (fetch_error_gives_empty_result "http://a.test/gone" "archives/id1" 2 1 boot
                eq_refl) as (_ & Hpages & _ & _ & Hloop).
  split; [reflexivity|]. split; [exact Hpages|]. split.
  - destruct (Hloop [] 0 ["http://a.test/p2"]) as (_ & _ & _ & Hsibling).
    apply (Hsibling "http://a.test/p2" []);
      [reflexivity | apply not_elem_of_empty | apply not_elem_of_empty | discriminate | lia].
  - vm_compute. split; reflexivity.
Defined.

Lemma stored_total_size_witness :
  exists archive,
    createArchive Site.root "id1" boot = (Created archive, Site.archived) /\
    p_size <$> ar_pages archive = Num <$> [4; 2; 2]%N /\
    ar_totalSize archive = "0KB" /\
    readArray (ar_assets archive) (totalled Site.root "id1" boot)
      `prefix_of` readArray (ar_assets archive) Site.archived /\
    ar_totalSize archive
    = pretty ((sumOf [4; 2; 2]
               + assetsSize (filter (fun r => a_status r = downloaded)
                               (readArray (ar_assets archive)
                                          (totalled Site.root "id1" boot)))
               + 512) / 1024)%N +:+ "KB".
Proof.
  assert (createArchive Site.root "id1" boot
          = (Created (mkArchive "id1" "http://a.test/" 0 "completed" 3 2 "0KB"
                        [mkPage "http://a.test/" "index.html" (Num 4) 5;
                         mkPage "http://a.test/p1" "p1" (Num 2) 9;
                         mkPage "http://a.test/p2" "p2" (Num 2) 14] 10),
             Site.archived)) as Hcreated by (vm_compute; reflexivity).
  destruct (stored_total_size Site.root "id1" boot _ Site.archived
              (Forall_nil_2 _) Hcreated) as (Hpre & _ & _ & Hcounts & _).
  eexists. split; [exact Hcreated|]. split; [reflexivity|]. split; [reflexivity|].
  split; [exact Hpre|]. apply Hcounts. reflexivity.
Defined.

Lemma failed_removal_keeps_record_witness :
  findIndex "id1" (archives Site.orphaned) = Some 0 /\
  rmdirRecursive (getArchiveDir "id1") Site.orphaned = None /\
  archives (deleteArchive "id1" Site.orphaned).2 = archives Site.orphaned.
Proof.
  split; [vm_compute; reflexivity|]. split; [vm_compute; reflexivity|].
  apply (failed_removal_keeps_record "id1" 0 Site.orphaned); vm_compute; reflexivity.
Defined.

Lemma deleteArchive_outcomes_witness :
  deleteArchive "nope" Site.archived = (NotFound, Site.archived) /\
  ((deleteArchive "id1" Site.archived).1 = Deleted /\
   archives (deleteArchive "id1" Site.archived).2 = []) /\
  (deleteArchive "id1" Site.orphaned).1 = ServerError.
Proof.
  split; [|split].
  - apply (deleteArchive_outcomes "nope" 0 Site.archived). vm_compute. reflexivity.
  - destruct (proj1 (proj2 (deleteArchive_outcomes "id1" 0 Site.archived)))
      as (Hreply & Hindex & _);
      [vm_compute; reflexivity
      |apply (bool_decide_unpack _); vm_compute; exact I
      |vm_compute; reflexivity
      |].
    split; [exact Hreply|]. rewrite Hindex. vm_compute. reflexivity.
  - apply (proj2 (proj2 (deleteArchive_outcomes "id1" 0 Site.orphaned)));
      [vm_compute; reflexivity|]. apply (bool_decide_unpack _). vm_compute. exact I.
Defined.


(** ** Further runs on the small site *)

Lemma pageFilename_last_segment_witness :
  pageFilename "/docs/a b.html" = "a_b.html" /\
  pageFilename "/blog/2024/a b.html" = "a_b.html" /\
  pageFilename "/docs/" = "page.html".
Proof.
  split; [|split].
  - apply (pageFilename_last_segment "/docs" "a b.html"); [|reflexivity].
    apply (bool_decide_unpack _). vm_compute. exact I.
  - apply (pageFilename_last_segment "/blog/2024" "a b.html"); [|reflexivity].
    apply (bool_decide_unpack _). vm_compute. exact I.
  - apply (pageFilename_last_segment "/docs" ""); [|reflexivity].
    apply (bool_decide_unpack _). vm_compute. exact I.
Defined.

Lemma downloadResource_stores_witness :
  exists response pathname,
    httpGet 0 "http://a.test/s.css" = Some response /\
    urlPathname "http://a.test/s.css" = Some pathname /\
    localPath (mkDownload "css/_s.css" (Some "text/css") 6)
    = pathJoin "css" (assetFilename pathname) /\
    dl_size (mkDownload "css/_s.css" (Some "text/css") 6)
    = N.of_nat (String.length (data response)) /\
    dl_contentType (mkDownload "css/_s.css" (Some "text/css") 6) = contentType response /\
    files (downloadResource "http://a.test/s.css" "archives/id1" "css" 0 boot).2
      !! pathJoin "archives/id1" (localPath (mkDownload "css/_s.css" (Some "text/css") 6))
    = Some (Payload (data response)).
Proof.
  apply (downloadResource_stores "http://a.test/s.css" "archives/id1" "css" 0 boot).
  vm_compute. reflexivity.
Defined.

Lemma downloadResource_failure_writes_nothing_witness :
  (downloadResource "http://a.test/missing.png" "archives/id1" "images" 0 boot).1 = None /\
  files (downloadResource "http://a.test/missing.png" "archives/id1" "images" 0 boot).2
  = files boot.
Proof.
  split; [vm_compute; reflexivity|].
  apply (downloadResource_failure_writes_nothing
           "http://a.test/missing.png" "archives/id1" "images" 0 boot).
  vm_compute. reflexivity.
Defined.

Lemma settled_download_is_referenced_witness :
  let out := processHtmlContent "P1" "http://a.test/p1" (getArchiveDir "id1") boot in
  let t := mkTask 0 2 0 css "http://a.test/s.css" (getArchiveDir "id1") 0 in
  inflight out.2 = [t] /\
  files (settle t out.2) !! "archives/id1/css/_s.css" = Some (Payload "body{}") /\
  (exists doc',
     docs (settle t out.2) !! 0 = Some doc' /\
     doc' !! 2 = Some (mkElement TagStylesheet (Some "/archives/id1/css/_s.css"))) /\
  readArray 0 (settle t out.2)
  = readArray 0 out.2 ++ [mkAsset css "http://a.test/s.css" downloaded None].
Proof.
  intros out t. split; [vm_compute; reflexivity|].
  apply (settled_download_is_referenced t out.2 "id1"
           (mkResponse "body{}" (Some "text/css")) "/s.css"
           [mkElement TagA (Some "/"); mkElement TagA (Some "/p2");
            mkElement TagStylesheet (Some "/s.css")]
           (mkElement TagStylesheet (Some "/s.css")));
    try (vm_compute; reflexivity).
  apply (bool_decide_unpack _). vm_compute. exact I.
Defined.

Lemma delete_keeps_other_archives_witness :
  (deleteArchive "id2" twice).1 = Deleted /\
  (exists archive, getArchive "id1" twice = Some archive) /\
  getArchive "id1" (deleteArchive "id2" twice).2 = getArchive "id1" twice.
Proof.
  split; [vm_compute; reflexivity|]. split; [eexists; vm_compute; reflexivity|].
  apply (delete_keeps_other_archives "id2" "id1" twice). discriminate.
Defined.

Lemma deleted_archive_is_gone_witness :
  ar_id <$> archives twice = ["id2"; "id1"] /\
  getArchive "id1" (deleteArchive "id1" twice).2 = None /\
  S (length (archives (deleteArchive "id1" twice).2)) = length (archives twice) /\
  NoDup (ar_id <$> archives (deleteArchive "id1" twice).2).
Proof.
  split; [vm_compute; reflexivity|].
  apply (deleted_archive_is_gone "id1" twice).
  - apply (bool_decide_unpack _). vm_compute. exact I.
  - vm_compute. reflexivity.
Defined.

Lemma created_archive_is_on_disk_witness :
  exists archive,
    createArchive Site.root "id1" boot = (Created archive, Site.archived) /\
    p_filename <$> ar_pages archive = ["index.html"; "p1"; "p2"] /\
    getArchiveDir "id1" ∈ dirs Site.archived /\
    is_Some (files Site.archived !! pathJoin (getArchiveDir "id1") "metadata.json") /\
    Forall (fun page =>
              is_Some (files Site.archived
                         !! pathJoin (pathJoin (getArchiveDir "id1") "pages")
                                     (p_filename page)))
           (ar_pages archive) /\
    dom (files boot) ⊆ dom (files Site.archived) /\ dirs boot ⊆ dirs Site.archived.
Proof.
  eexists. split; [vm_compute; reflexivity|]. split; [vm_compute; reflexivity|].
  eapply (created_archive_is_on_disk Site.root "id1" boot). vm_compute. reflexivity.
Defined.

Lemma created_archive_can_be_deleted_witness :
  (exists archive, createArchive Site.root "id1" boot = (Created archive, Site.archived)) /\
  (deleteArchive "id1" Site.archived).1 = Deleted /\
  archives (deleteArchive "id1" Site.archived).2 = archives boot.
Proof.
  split; [eexists; vm_compute; reflexivity|].
  eapply (created_archive_can_be_deleted Site.root "id1" boot);
    [vm_compute; reflexivity|reflexivity].
Defined.

Lemma main_page_is_the_root_witness :
  exists archive page content,
    createArchive Site.root "id1" boot = (Created archive, Site.archived) /\
    Frontend.mainPage (ar_pages archive) = Some page /\
    p_url page = Site.root /\
    p_filename page = "index.html" /\
    elements (visited Site.archived)
    = ["http://a.test/gone"; "http://a.test/p1"; "http://a.test/p2"; "http://a.test/"] /\
    files Site.archived !! pagePath (getArchiveDir "id1") page = Some (Payload content).
Proof.
  assert (createArchive Site.root "id1" boot
          = (Created (mkArchive "id1" "http://a.test/" 0 "completed" 3 2 "0KB"
                        [mkPage "http://a.test/" "index.html" (Num 4) 5;
                         mkPage "http://a.test/p1" "p1" (Num 2) 9;
                         mkPage "http://a.test/p2" "p2" (Num 2) 14] 10),
             Site.archived)) as Hcreated by (vm_compute; reflexivity).
  assert (elements (visited Site.archived)
          = ["http://a.test/gone"; "http://a.test/p1"; "http://a.test/p2";
             "http://a.test/"]) as Hvisited by (vm_compute; reflexivity).
  destruct (main_page_is_the_root Site.root "id1" boot _ Site.archived Hcreated)
    as (Hurl & response & loaded & _ & _ & Hfile).
  eexists _, _, (renderHtml loaded).
  split; [exact Hcreated|]. split; [reflexivity|]. split; [reflexivity|].
  split; [reflexivity|]. split; [exact Hvisited|].
  apply Hfile. intros u pathname Hu Hne Hpath.
  apply elem_of_elements in Hu. rewrite Hvisited in Hu.
  repeat (apply elem_of_cons in Hu as [->|Hu]);
    [vm_compute in Hpath; injection Hpath as <-; vm_compute; discriminate..
    |exfalso; apply Hne; reflexivity|exfalso; exact (proj1 (elem_of_nil _) Hu)].
Defined.

Lemma formatSize_within_a_kilobyte_witness :
  formatSize (Num 1500) = "1KB" /\ formatSize (Num 600) = "1KB" /\
  (1500 < 600 + 1024)%N /\ (600 < 1500 + 1024)%N /\
  (exists q, formatSize (Num 1500) = pretty q +:+ "KB" /\
             (1024 * q <= 1500 + 512)%N /\ (1500 + 512 < 1024 * q + 1024)%N) /\
  formatSize NaN = "NaNKB" /\
  formatSize (Num 1500) <> formatSize NaN.
Proof.
  split; [vm_compute; reflexivity|]. split; [vm_compute; reflexivity|].
  apply (formatSize_within_a_kilobyte 1500 600). vm_compute. reflexivity.
Defined.
